(** * The recording hook of audio-ata-organizer

    A shallow embedding of [src/hooks/useRecording.ts]: the React hook that
    owns the recording lifecycle (start, pause, resume, stop), buffers the
    audio chunks of the platform recorder and, when the recorder stops,
    submits the audio to the transcription endpoint.

    The hook is effectful JavaScript.  It is embedded as functions in a small
    state-and-exception monad over a [World] that holds

    - the React state of the hook (the seven [useState] cells),
    - the platform objects the hook creates (recorders with their stream and
      their buffered chunks, speech recognisers), kept in a store and named by
      their index, because the hook state, the event handlers and the
      platform all refer to the same mutable object,
    - the voice registry singleton,
    - the HTTP requests sent, each marked pending or settled, and
    - the chronological trace of every externally visible action
      (notifications, platform calls, state setter calls, HTTP requests).

    What the outside world answers (the clock, the microphone permission, the
    HTTP response) is passed to each operation as an argument. *)

From stdpp Require Import base option list strings numbers.

Open Scope string_scope.
Open Scope list_scope.
Set Warnings "-register-all,-clear-no-such-hyp".

(** ** JavaScript values the hook observes *)

Module Js.

(** What a [catch] clause can receive: an [Error] instance with its
    message, or any other thrown value ([error instanceof Error] fails). *)
Inductive Thrown : Type :=
| ErrorObject (message : string)
| NonError.

(** The way a call or an awaited promise completes. *)
Inductive Completion (A : Type) : Type :=
| Normal (a : A)
| Throw (e : Thrown).
Arguments Normal {A} a.
Arguments Throw {A} e.

(** The messages of the [TypeError]s the engine itself throws. The language
    fixes when they are thrown, not their wording, which differs from one
    engine to the next. *)
Class Engine : Type := {
  (** reading property [k] of [null] *)
  cannot_read_null : string → string;
  (** converting to a primitive an object none of whose [toString] and
      [valueOf] gives one *)
  cannot_convert_object : string
}.

(** A number as this program can observe it: whether [||] treats it as
    falsy (zero), and the text [String()] gives for it. *)
Record number : Type := { num_falsy : bool; num_text : string }.

(** A parsed JSON document. An object keeps its members in source order. *)
Inductive json : Type :=
| JNull
| JBool (b : bool)
| JNum (n : number)
| JStr (s : string)
| JArr (items : list json)
| JObj (members : list (string * json)).

(** A value read from a document: [None] is [undefined]. *)
Definition value : Type := option json.

(** [JSON.parse] keeps the last member of a repeated key. *)
Fixpoint member (k : string) (members : list (string * json)) : value :=
  match members with
  | [] => None
  | (k', v) :: rest =>
      match member k rest with
      | Some v' => Some v'
      | None => if decide (k' = k) then Some v else None
      end
  end.

(** [v.k] for a [v] that is neither [null] nor [undefined], and a [k] that
    no prototype defines ([error], [message]): only objects answer. *)
Definition prop (v : json) (k : string) : value :=
  match v with
  | JObj members => member k members
  | _ => None
  end.

(** [v.k]: reading a property of [null] throws a [TypeError], whose
    message is the engine's. *)
Definition get `{Engine} (v : json) (k : string) : Completion value :=
  match v with
  | JNull => Throw (ErrorObject (cannot_read_null k))
  | _ => Normal (prop v k)
  end.

(** [v?.k]: [undefined] when [v] is [null] or [undefined]. *)
Definition get_opt (v : value) (k : string) : value :=
  match v with
  | None | Some JNull => None
  | Some o => prop o k
  end.

Definition truthy (v : value) : bool :=
  match v with
  | None | Some JNull => false
  | Some (JBool b) => b
  | Some (JNum n) => negb (num_falsy n)
  | Some (JStr s) => negb (bool_decide (s = ""))
  | Some (JArr _) | Some (JObj _) => true
  end.

(** [ToString(v)], which is what [new Error(v)] stores as its message.
    An object is converted by the first of its [toString] and [valueOf]
    that is callable and returns a primitive. A parsed object inherits
    both from [Object.prototype] ([toString] gives ["[object Object]"],
    [valueOf] the object itself), unless it has a member of that name: a
    member is never callable, so an object with a member [toString] has no
    conversion, and a [TypeError] is thrown. An array is converted by
    [join]: its items in order, [null] as the empty string, separated by
    commas; the first item without a conversion throws. *)
Fixpoint ToString `{Engine} (v : json) : Completion string :=
  match v with
  | JNull => Normal "null"
  | JBool true => Normal "true"
  | JBool false => Normal "false"
  | JNum n => Normal (num_text n)
  | JStr s => Normal s
  | JArr items =>
      (fix join (l : list json) : Completion string :=
         match l with
         | [] => Normal ""
         | x :: rest =>
             match (match x with JNull => Normal "" | _ => ToString x end) with
             | Throw e => Throw e
             | Normal shown =>
                 match rest with
                 | [] => Normal shown
                 | _ :: _ =>
                     match join rest with
                     | Throw e => Throw e
                     | Normal others => Normal (shown +:+ "," +:+ others)
                     end
                 end
             end
         end) items
  | JObj members =>
      match member "toString" members with
      | Some _ => Throw (ErrorObject cannot_convert_object)
      | None => Normal "[object Object]"
      end
  end.

(** Truthiness of a [string] and of a [number | null] state cell. *)
Definition truthy_string (s : string) : bool := negb (bool_decide (s = "")).

Definition truthy_time (t : option Z) : bool :=
  match t with
  | Some z => negb (z =? 0)%Z
  | None => false
  end.

End Js.
Import Js.

(** ** External collaborators

    The hook imports these from other modules of the application; it only
    calls them. *)

Class Services : Type := {
  (** [TranscriptionSegment] of [@/types/transcription]. *)
  TranscriptionSegment : Type;
  (** [handleNameRecognition(transcript)]: the name spoken in a transcript
      fragment, if any. *)
  handleNameRecognition : string → option string;
  (** [processTranscriptionResult(result)]: the segments of a transcription
      response; like any call, it may throw. *)
  processTranscriptionResult : json → Completion (list TranscriptionSegment)
}.

(** ** Data model *)

(** A notification handed to [toast]. [variant] is absent unless given. *)
Record Toast : Type := {
  title : string;
  description : string;
  variant : option string
}.

(** A [Blob]: its bytes and its MIME type; [size] is the number of bytes. *)
Record Blob : Type := { blob_bytes : list Byte.byte; blob_type : string }.

Definition size (b : Blob) : nat := length (blob_bytes b).

(** [new Blob(parts, { type })]: the parts' bytes in order. *)
Definition new_Blob (parts : list Blob) (type : string) : Blob :=
  {| blob_bytes := concat (blob_bytes <$> parts); blob_type := type |}.

(** A field of a multipart form. *)
Inductive FormValue : Type :=
| FormText (value : string)
| FormFile (content : Blob) (filename : string).

(** A [fetch] call. *)
Record Request : Type := {
  url : string;
  method : string;
  headers : list (string * string);
  body : list (string * FormValue)
}.

(** What the server answers: the status line and what [response.json()]
    settles to (a parsed document, or the parser's exception). *)
Record Response : Type := {
  status : Z;
  json_body : Completion json
}.

Definition ok (r : Response) : bool :=
  ((200 <=? status r) && (status r <=? 299))%Z.

(** What an awaited [fetch] settles to. *)
Inductive FetchOutcome : Type :=
| FetchRejects (e : Thrown)
| FetchResolves (r : Response).

(** [MediaRecorder.state]. *)
Inductive RecordingState : Type := inactive | recording | paused.

Global Instance RecordingState_eq_dec : EqDecision RecordingState.
Proof. solve_decision. Defined.

(** A track of the microphone stream: [true] while its [readyState] is
    live, [false] once ended. *)
Definition MediaStreamTrack : Type := bool.

(** The variables of the enclosing render that the [onstop] arrow function
    of [startRecording] closes over. They are [const] bindings of the render
    in which [startRecording] was called: a later [setRecordingStartTime]
    produces a new render with new bindings and leaves these as they were. *)
Record Closure : Type := {
  seen_recordingStartTime : option Z;
  seen_apiKey : string
}.

(** A [MediaRecorder] with the stream it records and the handlers the hook
    attaches. [audioChunks] is the array shared by its [ondataavailable] and
    [onstop] handlers. [started_at] remembers the clock at [start()], and
    [stop_event_queued] that [stop()] has queued a [stop] event that is yet
    to be dispatched. *)
Record Recorder : Type := {
  state : RecordingState;
  stream : list MediaStreamTrack;
  audioChunks : list Blob;
  onstop_closure : option Closure;
  started_at : option Z;
  stop_event_queued : bool
}.

(** A [SpeechRecognition] object. *)
Record Recognition : Type := {
  lang : string;
  continuous : bool;
  interimResults : bool;
  has_onresult : bool;
  listening : bool
}.

(** Modelled from the spec: a voice profile of [voiceIdentificationService]
    (the service is imported, its source is not part of the hook): a name
    plus a placeholder embedding vector. *)
Record VoiceProfile : Type := {
  name : string;
  embedding : list Z
}.

(** A [SpeechRecognitionResult]: its first alternative's transcript (the
    platform delivers at least one alternative) and the others. *)
Record SpeechRecognitionResult : Type := {
  transcript : string;
  alternatives : list string;
  isFinal : bool
}.

(** A [SpeechRecognitionEvent]. *)
Record SpeechRecognitionEvent : Type := {
  resultIndex : nat;
  results : list SpeechRecognitionResult
}.

Section Hook.

Context {services : Services}.
Context {engine : Engine}.

(** The React state of the hook, one field per [useState]. Platform
    objects are referred to by their index in the store. *)
Record HookState : Type := {
  isRecording : bool;
  isPaused : bool;
  mediaRecorder : option nat;
  transcriptionSegments : list TranscriptionSegment;
  isTranscribing : bool;
  speechRecognition : option nat;
  recordingStartTime : option Z
}.

(** A call of one of the seven state setters. *)
Inductive Update : Type :=
| setIsRecording (b : bool)
| setIsPaused (b : bool)
| setMediaRecorder (r : option nat)
| setTranscriptionSegments (segments : list TranscriptionSegment)
| setIsTranscribing (b : bool)
| setSpeechRecognition (r : option nat)
| setRecordingStartTime (t : option Z).

Definition apply_update (u : Update) (s : HookState) : HookState :=
  match u with
  | setIsRecording b =>
      {| isRecording := b; isPaused := isPaused s; mediaRecorder := mediaRecorder s;
         transcriptionSegments := transcriptionSegments s;
         isTranscribing := isTranscribing s; speechRecognition := speechRecognition s;
         recordingStartTime := recordingStartTime s |}
  | setIsPaused b =>
      {| isRecording := isRecording s; isPaused := b; mediaRecorder := mediaRecorder s;
         transcriptionSegments := transcriptionSegments s;
         isTranscribing := isTranscribing s; speechRecognition := speechRecognition s;
         recordingStartTime := recordingStartTime s |}
  | setMediaRecorder r =>
      {| isRecording := isRecording s; isPaused := isPaused s; mediaRecorder := r;
         transcriptionSegments := transcriptionSegments s;
         isTranscribing := isTranscribing s; speechRecognition := speechRecognition s;
         recordingStartTime := recordingStartTime s |}
  | setTranscriptionSegments segments =>
      {| isRecording := isRecording s; isPaused := isPaused s;
         mediaRecorder := mediaRecorder s; transcriptionSegments := segments;
         isTranscribing := isTranscribing s; speechRecognition := speechRecognition s;
         recordingStartTime := recordingStartTime s |}
  | setIsTranscribing b =>
      {| isRecording := isRecording s; isPaused := isPaused s;
         mediaRecorder := mediaRecorder s;
         transcriptionSegments := transcriptionSegments s;
         isTranscribing := b; speechRecognition := speechRecognition s;
         recordingStartTime := recordingStartTime s |}
  | setSpeechRecognition r =>
      {| isRecording := isRecording s; isPaused := isPaused s;
         mediaRecorder := mediaRecorder s;
         transcriptionSegments := transcriptionSegments s;
         isTranscribing := isTranscribing s; speechRecognition := r;
         recordingStartTime := recordingStartTime s |}
  | setRecordingStartTime t =>
      {| isRecording := isRecording s; isPaused := isPaused s;
         mediaRecorder := mediaRecorder s;
         transcriptionSegments := transcriptionSegments s;
         isTranscribing := isTranscribing s; speechRecognition := speechRecognition s;
         recordingStartTime := t |}
  end.

(** Everything the hook does that can be seen from outside, in the order
    it happens. *)
Inductive Event : Type :=
| EToast (t : Toast)
| EConsoleError (label : string) (e : Thrown)
| ESet (u : Update)
| ERegistryClear
| ERegistryAdd (p : VoiceProfile)
| EPlayIdentificationPrompt
| EGetUserMedia (sampleRate channelCount : Z)
| ENewMediaRecorder (r : nat)
| ENewSpeechRecognition (r : nat)
| ERecorderStart (r : nat) (timeslice : Z)
| ERecorderStop (r : nat)
| ERecorderPause (r : nat)
| ERecorderResume (r : nat)
| ETrackStop (r : nat) (track : nat)
| ERecognitionStart (r : nat)
| ERecognitionStop (r : nat)
| EFetch (req : Request).

Record World : Type := {
  hook : HookState;
  recorders : list Recorder;
  recognitions : list Recognition;
  profiles : list VoiceProfile;
  requests : list (Request * bool);
  trace : list Event
}.

(** The first render: every [useState] initial value, nothing created. *)
Definition initial_hook : HookState :=
  {| isRecording := false; isPaused := false; mediaRecorder := None;
     transcriptionSegments := []; isTranscribing := false;
     speechRecognition := None; recordingStartTime := None |}.

Definition initial_world (registry : list VoiceProfile) : World :=
  {| hook := initial_hook; recorders := []; recognitions := [];
     profiles := registry; requests := []; trace := [] |}.

(** ** The effect monad

    A computation transforms the world and completes normally or by
    throwing. [await] is sequencing: what the awaited promise settles to is
    an argument of the operation. *)

Definition Eff (A : Type) : Type := World → Completion A * World.

#[global] Instance Eff_ret : MRet Eff := λ A a w, (Normal a, w).

#[global] Instance Eff_bind : MBind Eff := λ A B f m w,
  match m w with
  | (Normal a, w') => f a w'
  | (Throw e, w') => (Throw e, w')
  end.

Definition throw {A : Type} (e : Thrown) : Eff A := λ w, (Throw e, w).

(** The result of a call into the platform or a collaborator. *)
Definition settle {A : Type} (c : Completion A) : Eff A := λ w, (c, w).

(** [try { body } catch (error) { handler }] *)
Definition try_catch {A : Type} (body : Eff A) (handler : Thrown → Eff A) : Eff A :=
  λ w,
    match body w with
    | (Normal a, w') => (Normal a, w')
    | (Throw e, w') => handler e w'
    end.

(** [try { body } finally { finalizer }] *)
Definition try_finally {A : Type} (body : Eff A) (finalizer : Eff unit) : Eff A :=
  λ w,
    match body w with
    | (c, w') =>
        match finalizer w' with
        | (Normal _, w'') => (c, w'')
        | (Throw e, w'') => (Throw e, w'')
        end
    end.

(** [for (const x of l) f(x)] *)
Fixpoint for_each {A : Type} (l : list A) (f : A → Eff unit) : Eff unit :=
  match l with
  | [] => mret ()
  | x :: rest => f x ;; for_each rest f
  end.

(** The world an event handler leaves behind, however it completes. *)
Definition run {A : Type} (m : Eff A) (w : World) : World := snd (m w).

(** *** Reading and writing the world *)

Definition with_hook (f : HookState → HookState) (w : World) : World :=
  {| hook := f (hook w); recorders := recorders w; recognitions := recognitions w;
     profiles := profiles w; requests := requests w; trace := trace w |}.

Definition with_recorders (f : list Recorder → list Recorder) (w : World) : World :=
  {| hook := hook w; recorders := f (recorders w); recognitions := recognitions w;
     profiles := profiles w; requests := requests w; trace := trace w |}.

Definition with_recognitions (f : list Recognition → list Recognition) (w : World) : World :=
  {| hook := hook w; recorders := recorders w; recognitions := f (recognitions w);
     profiles := profiles w; requests := requests w; trace := trace w |}.

Definition with_profiles (f : list VoiceProfile → list VoiceProfile) (w : World) : World :=
  {| hook := hook w; recorders := recorders w; recognitions := recognitions w;
     profiles := f (profiles w); requests := requests w; trace := trace w |}.

Definition with_requests (f : list (Request * bool) → list (Request * bool)) (w : World) : World :=
  {| hook := hook w; recorders := recorders w; recognitions := recognitions w;
     profiles := profiles w; requests := f (requests w); trace := trace w |}.

Definition with_trace (f : list Event → list Event) (w : World) : World :=
  {| hook := hook w; recorders := recorders w; recognitions := recognitions w;
     profiles := profiles w; requests := requests w; trace := f (trace w) |}.

Definition modify (f : World → World) : Eff unit := λ w, (Normal (), f w).

Definition reads {A : Type} (f : World → A) : Eff A := λ w, (Normal (f w), w).

Definition emit (e : Event) : Eff unit := modify (with_trace (λ t, t ++ [e])).

(** The values a function of the hook sees: the [const] bindings of the
    render it was created in. A call from the user interface is a call of
    the function of the latest render, whose bindings are the current state
    cells. *)
Definition current_render : Eff HookState := reads hook.

(** A state setter: recorded, and visible to every later render. *)
Definition set (u : Update) : Eff unit :=
  emit (ESet u) ;; modify (with_hook (apply_update u)).

Definition toast (t : Toast) : Eff unit := emit (EToast t).

(** ** The platform objects *)

(** What the platform and the audio service answer during one call of
    [startRecording]: each call returns or throws. *)
Record Platform : Type := {
  playIdentificationPrompt_result : Completion unit;
  getUserMedia_result : Completion (list MediaStreamTrack);
  new_MediaRecorder_result : Completion unit;
  new_SpeechRecognition_result : Completion unit;
  start_result : Completion unit
}.

Definition playIdentificationPrompt (platform : Platform) : Eff unit :=
  emit EPlayIdentificationPrompt ;; settle (playIdentificationPrompt_result platform).

Definition getUserMedia (platform : Platform) (sampleRate channelCount : Z)
  : Eff (list MediaStreamTrack) :=
  emit (EGetUserMedia sampleRate channelCount) ;; settle (getUserMedia_result platform).

(** [new MediaRecorder(stream)]: a new object of the store, [inactive], with
    no handler and no data yet. *)
Definition new_MediaRecorder (platform : Platform) (tracks : list MediaStreamTrack)
  : Eff nat :=
  settle (new_MediaRecorder_result platform) ;;
  r ← reads (λ w, length (recorders w));
  modify (with_recorders (λ l, l ++ [
    {| state := inactive; stream := tracks; audioChunks := [];
       onstop_closure := None; started_at := None; stop_event_queued := false |}])) ;;
  emit (ENewMediaRecorder r) ;;
  mret r.

(** [new (window.SpeechRecognition || window.webkitSpeechRecognition)()],
    which throws where the platform defines neither constructor. *)
Definition new_SpeechRecognition (platform : Platform) : Eff nat :=
  settle (new_SpeechRecognition_result platform) ;;
  r ← reads (λ w, length (recognitions w));
  modify (with_recognitions (λ l, l ++ [
    {| lang := ""; continuous := false; interimResults := false;
       has_onresult := false; listening := false |}])) ;;
  emit (ENewSpeechRecognition r) ;;
  mret r.

Definition update_recorder (r : nat) (f : Recorder → Recorder) : Eff unit :=
  modify (with_recorders (alter f r)).

Definition update_recognition (r : nat) (f : Recognition → Recognition) : Eff unit :=
  modify (with_recognitions (alter f r)).

(** [recorder.state], when [recorder] is an object of the store. *)
Definition recorder_state (r : nat) : Eff (option RecordingState) :=
  reads (λ w, state <$> recorders w !! r).

(** [recorder.start(timeslice)] *)
Definition recorder_start (platform : Platform) (r : nat) (timeslice now : Z) : Eff unit :=
  emit (ERecorderStart r timeslice) ;;
  settle (start_result platform) ;;
  update_recorder r (λ x,
    {| state := recording; stream := stream x; audioChunks := audioChunks x;
       onstop_closure := onstop_closure x; started_at := Some now;
       stop_event_queued := stop_event_queued x |}).

(** [recorder.stop()]: nothing for an inactive recorder; otherwise the
    recorder becomes inactive and a [stop] event is queued. *)
Definition recorder_stop (r : nat) : Eff unit :=
  emit (ERecorderStop r) ;;
  update_recorder r (λ x,
    match state x with
    | inactive => x
    | _ =>
        {| state := inactive; stream := stream x; audioChunks := audioChunks x;
           onstop_closure := onstop_closure x; started_at := started_at x;
           stop_event_queued := true |}
    end).

Definition InvalidStateError : Thrown :=
  ErrorObject "The MediaRecorder's state is 'inactive'.".

(** [recorder.pause()] *)
Definition recorder_pause (r : nat) : Eff unit :=
  emit (ERecorderPause r) ;;
  st ← recorder_state r;
  match st with
  | Some inactive => throw InvalidStateError
  | _ =>
      update_recorder r (λ x,
        {| state := paused; stream := stream x; audioChunks := audioChunks x;
           onstop_closure := onstop_closure x; started_at := started_at x;
           stop_event_queued := stop_event_queued x |})
  end.

(** [recorder.resume()] *)
Definition recorder_resume (r : nat) : Eff unit :=
  emit (ERecorderResume r) ;;
  st ← recorder_state r;
  match st with
  | Some inactive => throw InvalidStateError
  | _ =>
      update_recorder r (λ x,
        {| state := recording; stream := stream x; audioChunks := audioChunks x;
           onstop_closure := onstop_closure x; started_at := started_at x;
           stop_event_queued := stop_event_queued x |})
  end.

(** [recorder.stream.getTracks()], as the indices of the tracks. *)
Definition getTracks (r : nat) : Eff (list nat) :=
  reads (λ w, seq 0 (length (default [] (stream <$> recorders w !! r)))).

(** [track.stop()] on track [k] of the stream of recorder [r]. *)
Definition track_stop (r k : nat) : Eff unit :=
  emit (ETrackStop r k) ;;
  update_recorder r (λ x,
    {| state := state x; stream := <[k := false]> (stream x);
       audioChunks := audioChunks x; onstop_closure := onstop_closure x;
       started_at := started_at x; stop_event_queued := stop_event_queued x |}).

(** [recognition.stop()] and [recognition.start()] *)
Definition recognition_stop (r : nat) : Eff unit :=
  emit (ERecognitionStop r) ;;
  update_recognition r (λ x,
    {| lang := lang x; continuous := continuous x; interimResults := interimResults x;
       has_onresult := has_onresult x; listening := false |}).

Definition recognition_start (r : nat) : Eff unit :=
  emit (ERecognitionStart r) ;;
  update_recognition r (λ x,
    {| lang := lang x; continuous := continuous x; interimResults := interimResults x;
       has_onresult := has_onresult x; listening := true |}).

(** [fetch(url, init)] up to its suspension: the request leaves. *)
Definition fetch_send (req : Request) : Eff nat :=
  id ← reads (λ w, length (requests w));
  emit (EFetch req) ;;
  modify (with_requests (λ l, l ++ [(req, true)])) ;;
  mret id.

(** [await] of that [fetch]: the request is settled, with a response or a
    rejection. *)
Definition fetch_settle (id : nat) (outcome : FetchOutcome) : Eff Response :=
  modify (with_requests (alter (λ q, (q.1, false)) id)) ;;
  match outcome with
  | FetchRejects e => throw e
  | FetchResolves response => mret response
  end.

Definition fetch (req : Request) (outcome : FetchOutcome) : Eff Response :=
  id ← fetch_send req; fetch_settle id outcome.

(** ** The voice registry *)

(** Modelled from the spec: [voiceIdentificationService.clear()] empties the
    registry of voice profiles (the service is imported by the hook, its
    source is not at hand). *)
Definition registry_clear : Eff unit :=
  emit ERegistryClear ;; modify (with_profiles (λ _, [])).

(** Modelled from the spec: [voiceIdentificationService.addProfile(name,
    embedding)] adds a voice profile of that name and embedding to the
    registry. *)
Definition registry_addProfile (n : string) (e : list Z) : Eff unit :=
  let p := {| name := n; embedding := e |} in
  emit (ERegistryAdd p) ;; modify (with_profiles (λ l, l ++ [p])).

(** [voiceIdentificationService.profiles.find(p => p.name === n)] *)
Definition registry_find (n : string) : Eff (option VoiceProfile) :=
  reads (λ w, find (λ p, bool_decide (name p = n)) (profiles w)).

(** ** The hook: [useRecording(apiKey)] *)

(** *** The handlers [startRecording] attaches *)

(** The body of the loop of [recognition.onresult], for one result. *)
Definition onresult_body (result : SpeechRecognitionResult) : Eff unit :=
  let transcript := transcript result in
  let name := handleNameRecognition transcript in
  match name with
  | Some n =>
      found ← registry_find n;
      if truthy_string n && negb (bool_decide (is_Some found)) then
        registry_addProfile n [] ;;
        toast {| title := "Novo participante identificado";
                 description := "Identificamos o participante: " +:+ n;
                 variant := None |}
      else mret ()
  | None => mret ()
  end.

(** [recognition.onresult]: the results from [event.resultIndex] on. *)
Definition onresult (event : SpeechRecognitionEvent) : Eff unit :=
  for_each (drop (resultIndex event) (results event)) onresult_body.

(** [recorder.ondataavailable] of recorder [r]. *)
Definition ondataavailable (r : nat) (data : Blob) : Eff unit :=
  if bool_decide (0 < size data) then
    update_recorder r (λ x,
      {| state := state x; stream := stream x; audioChunks := audioChunks x ++ [data];
         onstop_closure := onstop_closure x; started_at := started_at x;
         stop_event_queued := stop_event_queued x |})
  else mret ().

Definition transcription_endpoint : string :=
  "https://api.openai.com/v1/audio/transcriptions".

(** The request the handler builds from the recorded audio. *)
Definition transcription_request (audioBlob : Blob) (apiKey : string) : Request :=
  let formData :=
    [("file", FormFile audioBlob "audio.wav");
     ("model", FormText "whisper-1");
     ("language", FormText "pt");
     ("response_format", FormText "verbose_json")] in
  {| url := transcription_endpoint;
     method := "POST";
     headers := [("Authorization", "Bearer " +:+ apiKey)];
     body := formData |}.

(** The guard of [onstop]:
    [!recordingStartTime || Date.now() - recordingStartTime < 100]. *)
Definition too_short (recordingStartTime : option Z) (now : Z) : bool :=
  negb (truthy_time recordingStartTime)
  || bool_decide (now - default 0 recordingStartTime < 100)%Z.

Definition too_short_warning : Toast :=
  {| title := "Aviso";
     description := "A gravação é muito curta. Por favor, grave por mais tempo.";
     variant := Some "destructive" |}.

(** The statements of the [try] block that follow the awaited [fetch]. *)
Definition onstop_read (response : Response) : Eff unit :=
  (if negb (ok response) then
     errorData ← settle (json_body response);
     error ← settle (get errorData "error");
     let message := get_opt error "message" in
     text ← settle (match message with
                    | Some m =>
                        if truthy message then ToString m
                        else Normal "Falha na transcrição"
                    | None => Normal "Falha na transcrição"
                    end);
     throw (ErrorObject text)
   else mret ()) ;;
  result ← settle (json_body response);
  segments ← settle (processTranscriptionResult result);
  set (setTranscriptionSegments segments) ;;
  toast {| title := "Transcrição concluída";
           description := "A ata da reunião está pronta.";
           variant := None |}.

(** The [catch] clause of [onstop]. *)
Definition onstop_catch (error : Thrown) : Eff unit :=
  emit (EConsoleError "Erro na transcrição:" error) ;;
  toast {| title := "Erro na transcrição";
           description :=
             match error with
             | ErrorObject message => message
             | NonError => "Não foi possível transcrever o áudio."
             end;
           variant := Some "destructive" |}.

(** [recorder.onstop] of recorder [r], run at clock [now], its [fetch]
    settling to [outcome]. [recordingStartTime] and [apiKey] are the
    bindings the arrow function closed over. *)
Definition onstop (r : nat) (now : Z) (outcome : FetchOutcome) : Eff unit :=
  handler ← reads (λ w, recorders w !! r ≫= λ x, pair x <$> onstop_closure x);
  match handler with
  | None => mret ()
  | Some (x, closure) =>
      let recordingStartTime := seen_recordingStartTime closure in
      let apiKey := seen_apiKey closure in
      let audioBlob := new_Blob (audioChunks x) "audio/wav" in
      if too_short recordingStartTime now then
        toast too_short_warning
      else
        set (setIsTranscribing true) ;;
        try_finally
          (try_catch
             (response ← fetch (transcription_request audioBlob apiKey) outcome;
              onstop_read response)
             onstop_catch)
          (set (setIsTranscribing false))
  end.

(** The same handler cut at its suspension point, for the event loop: the
    part that runs when the [stop] event is dispatched, up to the request
    leaving ... *)
Definition onstop_until_fetch (r : nat) (now : Z) : Eff (option nat) :=
  handler ← reads (λ w, recorders w !! r ≫= λ x, pair x <$> onstop_closure x);
  match handler with
  | None => mret None
  | Some (x, closure) =>
      let recordingStartTime := seen_recordingStartTime closure in
      let apiKey := seen_apiKey closure in
      let audioBlob := new_Blob (audioChunks x) "audio/wav" in
      if too_short recordingStartTime now then
        toast too_short_warning ;; mret None
      else
        set (setIsTranscribing true) ;;
        id ← fetch_send (transcription_request audioBlob apiKey);
        mret (Some id)
  end.

(** ... and the part that runs when request [id] settles. *)
Definition onstop_from_fetch (id : nat) (outcome : FetchOutcome) : Eff unit :=
  try_finally
    (try_catch
       (response ← fetch_settle id outcome; onstop_read response)
       onstop_catch)
    (set (setIsTranscribing false)).

(** *** The functions the hook returns *)

Definition startRecording (apiKey : string) (identificationEnabled : bool)
    (platform : Platform) (now : Z) : Eff unit :=
  render ← current_render;
  if negb (truthy_string apiKey) then
    toast {| title := "Erro";
             description := "Por favor, insira sua chave da API OpenAI primeiro.";
             variant := Some "destructive" |}
  else
    try_catch
      ((if identificationEnabled then
          registry_clear ;; playIdentificationPrompt platform
        else mret ()) ;;
       tracks ← getUserMedia platform 16000 1;
       recorder ← new_MediaRecorder platform tracks;
       recognition ← new_SpeechRecognition platform;
       update_recognition recognition (λ x,
         {| lang := "pt-BR"; continuous := true; interimResults := true;
            has_onresult := true; listening := listening x |}) ;;
       update_recorder recorder (λ x,
         {| state := state x; stream := stream x; audioChunks := audioChunks x;
            onstop_closure :=
              Some {| seen_recordingStartTime := recordingStartTime render;
                      seen_apiKey := apiKey |};
            started_at := started_at x; stop_event_queued := stop_event_queued x |}) ;;
       recorder_start platform recorder 1000 now ;;
       set (setRecordingStartTime (Some now)) ;;
       set (setMediaRecorder (Some recorder)) ;;
       set (setIsRecording true) ;;
       set (setIsPaused false))
      (λ error,
         toast {| title := "Erro";
                  description := "Não foi possível acessar o microfone.";
                  variant := Some "destructive" |}).

Definition stopRecording : Eff unit :=
  render ← current_render;
  match mediaRecorder render with
  | Some recorder =>
      recorder_stop recorder ;;
      tracks ← getTracks recorder;
      for_each tracks (λ track, track_stop recorder track) ;;
      match speechRecognition render with
      | Some recognition => recognition_stop recognition
      | None => mret ()
      end ;;
      set (setIsRecording false) ;;
      set (setIsPaused false) ;;
      set (setMediaRecorder None) ;;
      set (setSpeechRecognition None) ;;
      set (setRecordingStartTime None)
  | None => mret ()
  end.

Definition pauseRecording : Eff unit :=
  render ← current_render;
  match mediaRecorder render with
  | Some recorder =>
      st ← recorder_state recorder;
      if bool_decide (st = Some recording) then
        recorder_pause recorder ;;
        match speechRecognition render with
        | Some recognition => recognition_stop recognition
        | None => mret ()
        end ;;
        set (setIsPaused true) ;;
        toast {| title := "Gravação pausada";
                 description := "A gravação foi pausada. Clique em retomar para continuar.";
                 variant := None |}
      else mret ()
  | None => mret ()
  end.

Definition resumeRecording : Eff unit :=
  render ← current_render;
  match mediaRecorder render with
  | Some recorder =>
      st ← recorder_state recorder;
      if bool_decide (st = Some paused) then
        recorder_resume recorder ;;
        match speechRecognition render with
        | Some recognition => recognition_start recognition
        | None => mret ()
        end ;;
        set (setIsPaused false) ;;
        toast {| title := "Gravação retomada";
                 description := "A gravação foi retomada.";
                 variant := None |}
      else mret ()
  | None => mret ()
  end.

(** ** The event loop

    Everything runs on one thread: a user action or a platform event runs
    its handler to its next suspension point, and the component is rendered
    again before the next one. [onstop] is cut at its [await fetch];
    [startRecording] is taken to run through its awaits without anything
    else in between. *)

Inductive Label : Type :=
| CallStart (apiKey : string) (identificationEnabled : bool) (platform : Platform) (now : Z)
| CallStop
| CallPause
| CallResume
| DataAvailable (r : nat) (data : Blob)
| Stopped (r : nat) (data : Blob) (now : Z)
| Settled (id : nat) (outcome : FetchOutcome)
| Result (recognition : nat) (event : SpeechRecognitionEvent).

(** When the platform can deliver an event: a time slice of data from a
    recorder that is recording, the queued [stop] event of a stopped
    recorder (preceded by its last data), the answer to a pending request, a
    result to a recogniser that has its handler (whether it listens or not:
    more than the platform does, so that nothing proved of the reachable
    worlds relies on recognisers staying silent). *)
Definition enabled (l : Label) (w : World) : bool :=
  match l with
  | CallStart _ _ _ _ | CallStop | CallPause | CallResume => true
  | DataAvailable r _ =>
      bool_decide (state <$> recorders w !! r = Some recording)
  | Stopped r _ _ =>
      bool_decide (stop_event_queued <$> recorders w !! r = Some true)
  | Settled id _ =>
      bool_decide (snd <$> requests w !! id = Some true)
  | Result recognition _ =>
      bool_decide (has_onresult <$> recognitions w !! recognition = Some true)
  end.

Definition fire (l : Label) : Eff unit :=
  match l with
  | CallStart apiKey identificationEnabled platform now =>
      startRecording apiKey identificationEnabled platform now
  | CallStop => stopRecording
  | CallPause => pauseRecording
  | CallResume => resumeRecording
  | DataAvailable r data => ondataavailable r data
  | Stopped r data now =>
      update_recorder r (λ x,
        {| state := state x; stream := stream x; audioChunks := audioChunks x;
           onstop_closure := onstop_closure x; started_at := started_at x;
           stop_event_queued := false |}) ;;
      ondataavailable r data ;;
      onstop_until_fetch r now ;;
      mret ()
  | Settled id outcome => onstop_from_fetch id outcome
  | Result _ event => onresult event
  end.

Definition step (l : Label) (w : World) : option World :=
  if enabled l w then Some (run (fire l) w) else None.

Fixpoint steps (ls : list Label) (w : World) : option World :=
  match ls with
  | [] => Some w
  | l :: rest => step l w ≫= steps rest
  end.

(** The worlds the hook can be in, the registry holding anything when the
    component mounts. *)
Inductive reachable : World → Prop :=
| reachable_mount registry : reachable (initial_world registry)
| reachable_step w l w' : reachable w → step l w = Some w' → reachable w'.

(** *** What the properties observe *)

(** The microphone was asked for. *)
Definition is_getUserMedia (e : Event) : bool :=
  match e with EGetUserMedia _ _ => true | _ => false end.

Definition is_fetch (e : Event) : bool :=
  match e with EFetch _ => true | _ => false end.

Definition is_toast (e : Event) : bool :=
  match e with EToast _ => true | _ => false end.

(** A call on a live-recognition instance. *)
Definition is_recognition_call (e : Event) : bool :=
  match e with ERecognitionStart _ | ERecognitionStop _ => true | _ => false end.

(** A state setter was called with a recogniser. *)
Definition is_setSpeechRecognition_object (e : Event) : bool :=
  match e with ESet (setSpeechRecognition (Some _)) => true | _ => false end.

(** The events a computation adds to the trace of [w]. *)
Definition emitted {A : Type} (m : Eff A) (w : World) : list Event :=
  drop (length (trace w)) (trace (run m w)).

Definition toasts {A : Type} (m : Eff A) (w : World) : list Event :=
  filter (λ e, is_toast e = true) (emitted m w).

(** The hook holds a recorder, and that recorder is in state [s]. *)
Definition recorder_in (s : RecordingState) (w : World) : Prop :=
  ∃ r, mediaRecorder (hook w) = Some r ∧ state <$> recorders w !! r = Some s.

(** A name has a profile in the voice registry. *)
Definition registered (n : string) (w : World) : Prop :=
  ∃ p, p ∈ profiles w ∧ name p = n.

(** What one round of the loop does: nothing, or the registration of a
    name that is truthy and has no profile yet, with its notification. *)
Definition registration (n : string) (w : World) : World :=
  with_trace (λ t, t ++ [EToast {| title := "Novo participante identificado";
                                   description := "Identificamos o participante: " +:+ n;
                                   variant := None |}])
    (with_profiles (λ l, l ++ [{| name := n; embedding := [] |}])
       (with_trace (λ t, t ++ [ERegistryAdd {| name := n; embedding := [] |}]) w)).

(** Every truthy name the results yield has a profile. *)
Definition saturated (l : list SpeechRecognitionResult) (w : World) : Prop :=
  ∀ result n, result ∈ l → handleNameRecognition (transcript result) = Some n →
              truthy_string n = true → registered n w.

(** No live recognition: the hook holds no recogniser, none was ever handed
    to [setSpeechRecognition], none was ever started or stopped, and none
    is listening. *)
Definition no_live_recognition (w : World) : Prop :=
  speechRecognition (hook w) = None
  ∧ Forall (λ e, is_recognition_call e = false
                 ∧ is_setSpeechRecognition_object e = false) (trace w)
  ∧ Forall (λ x, listening x = false) (recognitions w).

(** The recorder the hook holds is an object of the store. *)
Definition recorder_in_store (w : World) : Prop :=
  ∀ r, mediaRecorder (hook w) = Some r → r < length (recorders w).

(** The hook holds a recorder exactly while it says it is recording, and is
    paused only then. *)
Definition session_consistent (h : HookState) : Prop :=
  (is_Some (mediaRecorder h) → isRecording h = true)
  ∧ (isPaused h = true → is_Some (mediaRecorder h)).

(** *** The outcomes of a transcription attempt, in the words of the
    specification *)

(** The two fixed texts the handler falls back on. *)
Definition generic_messages : list string :=
  ["Falha na transcrição"; "Não foi possível transcrever o áudio."].

(** The [error.message] of an error document, when the document has a
    truthy one. *)
Definition error_message (doc : json) : option json :=
  match get_opt (prop doc "error") "message" with
  | Some m => if truthy (Some m) then Some m else None
  | None => None
  end.

(** The message the server provides: the text of that [error.message],
    when it has one. *)
Definition server_message (doc : json) : option string :=
  match error_message doc with
  | Some m =>
      match ToString m with
      | Normal text => Some text
      | Throw _ => None
      end
  | None => None
  end.

(** The text shown for a thrown value. *)
Definition thrown_text (e : Thrown) : string :=
  match e with
  | ErrorObject message => message
  | NonError => "Não foi possível transcrever o áudio."
  end.

(** [failure outcome d]: the attempt fails and [d] is the description to
    show. It fails when the request is rejected, when the body cannot be
    parsed, when the status is not a success, or when the mapping of the
    result throws. With a status that is not a success, the description is
    the engine's message for a [null] body, the generic text for a document
    without a truthy [error.message], the text of the [error.message] when
    it has one, and the engine's message when it has none. *)
Inductive failure : FetchOutcome → string → Prop :=
| failure_rejected e :
    failure (FetchRejects e) (thrown_text e)
| failure_unparsable r e :
    json_body r = Throw e →
    failure (FetchResolves r) (thrown_text e)
| failure_null r :
    ok r = false → json_body r = Normal JNull →
    failure (FetchResolves r) (cannot_read_null "error")
| failure_status r doc :
    ok r = false → json_body r = Normal doc → doc ≠ JNull →
    error_message doc = None →
    failure (FetchResolves r) "Falha na transcrição"
| failure_server r doc m text :
    ok r = false → json_body r = Normal doc → doc ≠ JNull →
    error_message doc = Some m → ToString m = Normal text →
    failure (FetchResolves r) text
| failure_conversion r doc m e :
    ok r = false → json_body r = Normal doc → doc ≠ JNull →
    error_message doc = Some m → ToString m = Throw e →
    failure (FetchResolves r) (thrown_text e)
| failure_mapping r doc e :
    ok r = true → json_body r = Normal doc →
    processTranscriptionResult doc = Throw e →
    failure (FetchResolves r) (thrown_text e).

(** [success outcome segments]: a success status, a body that parses and
    maps to [segments]. *)
Definition success (outcome : FetchOutcome)
    (segments : list TranscriptionSegment) : Prop :=
  ∃ r doc, outcome = FetchResolves r ∧ ok r = true ∧ json_body r = Normal doc
           ∧ processTranscriptionResult doc = Normal segments.

(** The notification of a failed attempt. *)
Definition failure_toast (d : string) : Toast :=
  {| title := "Erro na transcrição"; description := d;
     variant := Some "destructive" |}.

(** The server-provided [error.message] of an outcome, when present. *)
Definition outcome_server_message (outcome : FetchOutcome) : option string :=
  match outcome with
  | FetchResolves r =>
      match json_body r with
      | Normal doc => server_message doc
      | Throw _ => None
      end
  | FetchRejects _ => None
  end.

(** The notification as the specification words it: the server-provided
    [error.message] when present, else a generic message. *)
Definition notified_as_specified (shown : list Event) (outcome : FetchOutcome) : Prop :=
  ∃ d, shown = [EToast (failure_toast d)]
       ∧ match outcome_server_message outcome with
         | Some m => d = m
         | None => d ∈ generic_messages
         end.

(** The world a settled request leaves. *)
Definition settled (id : nat) (w : World) : World :=
  with_requests (alter (λ q, (q.1, false)) id) w.

Definition reported (e : Thrown) (d : string) (w : World) : World :=
  with_hook (apply_update (setIsTranscribing false))
    (with_trace (λ t, t ++ [EConsoleError "Erro na transcrição:" e;
                            EToast (failure_toast d);
                            ESet (setIsTranscribing false)]) w).

Definition transcribed (segments : list TranscriptionSegment) (w : World) : World :=
  with_hook (apply_update (setIsTranscribing false))
    (with_hook (apply_update (setTranscriptionSegments segments))
       (with_trace (λ t, t ++ [ESet (setTranscriptionSegments segments);
                               EToast {| title := "Transcrição concluída";
                                         description := "A ata da reunião está pronta.";
                                         variant := None |};
                               ESet (setIsTranscribing false)]) w)).

(** The world the handler leaves at its suspension point: the flag set,
    the request sent and pending. *)
Definition requested (req : Request) (w : World) : World :=
  with_requests (λ l, l ++ [(req, true)])
    (with_trace (λ t, t ++ [ESet (setIsTranscribing true); EFetch req])
       (with_hook (apply_update (setIsTranscribing true)) w)).

(** *** Reasoning about computations *)

(** [wp m Q w]: run from [w], [m] completes in a way and a world that
    satisfy [Q]. *)
Definition wp {A : Type} (m : Eff A) (Q : Completion A → World → Prop)
    (w : World) : Prop :=
  Q (m w).1 (m w).2.

(** [m] keeps [I]. *)
Definition preserves {A : Type} (I : World → Prop) (m : Eff A) : Prop :=
  ∀ w, I w → I (run m w).

(** What [recorder.stop()] and the [track.stop()] calls make of a
    recorder. *)
Definition stopped (x : Recorder) : Recorder :=
  match state x with
  | inactive => x
  | _ =>
      {| state := inactive; stream := stream x; audioChunks := audioChunks x;
         onstop_closure := onstop_closure x; started_at := started_at x;
         stop_event_queued := true |}
  end.

Definition stop_tracks (ks : list nat) (x : Recorder) : Recorder :=
  {| state := state x; stream := foldl (λ s k, <[k := false]> s) (stream x) ks;
     audioChunks := audioChunks x; onstop_closure := onstop_closure x;
     started_at := started_at x; stop_event_queued := stop_event_queued x |}.

(** *** Further observations *)

Definition is_normal {A : Type} (c : Completion A) : bool :=
  match c with Normal _ => true | Throw _ => false end.

(** Every call [startRecording] makes into the platform returns (the
    prompt is only played with identification enabled). *)
Definition platform_succeeds (identificationEnabled : bool) (platform : Platform)
  : bool :=
  (negb identificationEnabled || is_normal (playIdentificationPrompt_result platform))
  && is_normal (getUserMedia_result platform)
  && is_normal (new_MediaRecorder_result platform)
  && is_normal (new_SpeechRecognition_result platform)
  && is_normal (start_result platform).

Definition microphone_error : Toast :=
  {| title := "Erro";
     description := "Não foi possível acessar o microfone.";
     variant := Some "destructive" |}.

Definition paused_notice : Toast :=
  {| title := "Gravação pausada";
     description := "A gravação foi pausada. Clique em retomar para continuar.";
     variant := None |}.

Definition resumed_notice : Toast :=
  {| title := "Gravação retomada";
     description := "A gravação foi retomada.";
     variant := None |}.

Definition transcription_done : Toast :=
  {| title := "Transcrição concluída";
     description := "A ata da reunião está pronta.";
     variant := None |}.

Definition participant_notice (n : string) : Toast :=
  {| title := "Novo participante identificado";
     description := "Identificamos o participante: " +:+ n;
     variant := None |}.

(** A chunk that [ondataavailable] keeps. *)
Definition kept (data : Blob) : Prop := 0 < size data.

#[global] Instance kept_dec (data : Blob) : Decision (kept data).
Proof. unfold kept. apply _. Defined.

(** A request as the hook sends them: a POST to the transcription
    endpoint, authorised by a credential that is not empty, whose form
    carries a WAV file named [audio.wav], the model, the language and the
    response format. *)
Definition well_formed_request (req : Request) : Prop :=
  url req = transcription_endpoint
  ∧ method req = "POST"
  ∧ (∃ apiKey, truthy_string apiKey = true
               ∧ headers req = [("Authorization", "Bearer " +:+ apiKey)])
  ∧ (∃ audio, blob_type audio = "audio/wav"
              ∧ body req = [("file", FormFile audio "audio.wav");
                            ("model", FormText "whisper-1");
                            ("language", FormText "pt");
                            ("response_format", FormText "verbose_json")]).

(** Every [onstop] handler closed over a credential that is not empty, and
    every request sent so far is well formed. *)
Definition credentials_kept (w : World) : Prop :=
  Forall (λ x, ∀ closure, onstop_closure x = Some closure →
                          truthy_string (seen_apiKey closure) = true) (recorders w)
  ∧ Forall (λ q, well_formed_request q.1) (requests w)
  ∧ Forall (λ e, ∀ req, e = EFetch req → well_formed_request req) (trace w).

(** The session cells go together: with a recorder the hook is recording
    and has a start time; without one it is neither recording nor paused
    and has no start time. *)
Definition session_cells_agree (h : HookState) : Prop :=
  match mediaRecorder h with
  | Some _ => isRecording h = true ∧ is_Some (recordingStartTime h)
  | None => isRecording h = false ∧ isPaused h = false ∧ recordingStartTime h = None
  end.

(** What the platform holds of a recorder: its state and its tracks. *)
Definition device (w : World) (r : nat)
  : option (RecordingState * list MediaStreamTrack) :=
  (λ x, (state x, stream x)) <$> recorders w !! r.

(** Recorder [r] exists, holds [d], and is not the recorder of the hook. *)
Definition orphaned (r : nat) (d : RecordingState * list MediaStreamTrack)
    (w : World) : Prop :=
  device w r = Some d ∧ mediaRecorder (hook w) ≠ Some r.

(** While the transcribing flag is up, a request is pending. *)
Definition flag_has_request (w : World) : Prop :=
  isTranscribing (hook w) = true →
  ∃ id req, requests w !! id = Some (req, true).

(** The recorder the hook holds is in the store, and is paused exactly when
    the hook says so, recording otherwise. *)
Definition paused_mirrors_recorder (w : World) : Prop :=
  ∀ r, mediaRecorder (hook w) = Some r →
       r < length (recorders w)
       ∧ state <$> recorders w !! r
         = Some (if isPaused (hook w) then paused else recording).


End Hook.

(** ** Sample collaborators and data

    A concrete set of collaborators, platform answers and blobs on which
    the definitions can be run. *)

Module Sample.

(** Segments are plain texts; a transcript names its speaker when it is
    not empty; a response is an array of texts. *)
Definition services : Services :=
  {| TranscriptionSegment := string;
     handleNameRecognition := λ t, if bool_decide (t = "") then None else Some t;
     processTranscriptionResult := λ result,
       match result with
       | JArr items =>
           Normal ((λ item, match item with JStr text => text | _ => "" end) <$> items)
       | _ => Throw (ErrorObject "result.segments is undefined")
       end |}.

(** The messages of the V8 engine (Chrome, Node). *)
Definition v8 : Engine :=
  {| cannot_read_null := λ k, "Cannot read properties of null (reading '" +:+ k +:+ "')";
     cannot_convert_object := "Cannot convert object to primitive value" |}.

#[local] Existing Instance v8.

(** The microphone is granted and every constructor succeeds. *)
Definition granted : Platform :=
  {| playIdentificationPrompt_result := Normal ();
     getUserMedia_result := Normal [true];
     new_MediaRecorder_result := Normal ();
     new_SpeechRecognition_result := Normal ();
     start_result := Normal () |}.

Definition chunk : Blob :=
  {| blob_bytes := [Byte.x52; Byte.x49; Byte.x46; Byte.x46]; blob_type := "audio/webm" |}.

Definition response_200 : FetchOutcome :=
  FetchResolves {| status := 200; json_body := Normal (JArr [JStr "Bom dia a todos."]) |}.

(** A gateway answers with a page that is not JSON. *)
Definition bad_gateway : FetchOutcome :=
  FetchResolves {| status := 502;
                   json_body := Throw (ErrorObject "Unexpected token < in JSON at position 0") |}.

(** The server answers 400 with an error document whose message is an
    object that has a member [toString]. *)
Definition unconvertible : FetchOutcome :=
  FetchResolves
    {| status := 400;
       json_body :=
         Normal (JObj [("error", JObj [("message", JObj [("toString", JStr "x")])])]) |}.

Definition ana : SpeechRecognitionResult :=
  {| transcript := "Ana"; alternatives := []; isFinal := true |}.

(** The first render. *)
Definition mounted : World (services := services) := initial_world [].

(** The first render, a participant being registered already. *)
Definition with_ana : World (services := services) :=
  initial_world [{| name := "Ana"; embedding := [] |}].

(** A recording is running; it is paused; a second recording was started
    over the first and stopped. *)
Definition recording_world : World (services := services) :=
  default mounted (steps [CallStart "sk-valid" false granted 1000] mounted).

Definition paused_world : World (services := services) :=
  default mounted (steps [CallStart "sk-valid" false granted 1000; CallPause] mounted).

Definition restarted : World (services := services) :=
  default mounted
    (steps [CallStart "sk-valid" false granted 1000;
            CallStart "sk-valid" false granted 6000;
            CallStop] mounted).

(** The microphone is refused. *)
Definition denied : Platform :=
  {| playIdentificationPrompt_result := Normal ();
     getUserMedia_result := Throw (ErrorObject "Permission denied");
     new_MediaRecorder_result := Normal ();
     new_SpeechRecognition_result := Normal ();
     start_result := Normal () |}.

(** A time slice without data. *)
Definition silence : Blob := {| blob_bytes := []; blob_type := "audio/webm" |}.

(** The recorder of [recording_world], and the one [restarted] stopped. *)
Definition first_recorder : Recorder :=
  {| state := recording; stream := [true]; audioChunks := [];
     onstop_closure :=
       Some {| seen_recordingStartTime := None; seen_apiKey := "sk-valid" |};
     started_at := Some 1000%Z; stop_event_queued := false |}.

Definition second_recorder : Recorder :=
  {| state := inactive; stream := [false]; audioChunks := [];
     onstop_closure :=
       Some {| seen_recordingStartTime := Some 1000%Z; seen_apiKey := "sk-valid" |};
     started_at := Some 6000%Z; stop_event_queued := true |}.

(** A second recording was started over the first. *)
Definition started_twice : World (services := services) :=
  default mounted
    (steps [CallStart "sk-valid" false granted 1000;
            CallStart "sk-valid" false granted 6000] mounted).

(** The request of the restarted recording is on its way. *)
Definition transcribing_world : World (services := services) :=
  default mounted
    (steps [CallStart "sk-valid" false granted 1000;
            CallStart "sk-valid" false granted 6000;
            CallStop;
            Stopped 1 chunk 12000] mounted).

(** Two results, the second naming a participant. *)
Definition ana_speaks : SpeechRecognitionEvent :=
  {| resultIndex := 0;
     results := [{| transcript := ""; alternatives := []; isFinal := false |}; ana] |}.

End Sample.

(** * Properties *)

Section Properties.

Context {services : Services}.
Context {engine : Engine}.

(** ** The JavaScript values on examples *)

Example member_keeps_the_last :
  member "message" [("message", JStr "first"); ("message", JStr "second")]
  = Some (JStr "second").
Proof. reflexivity. Qed.

Example get_of_null_throws :
  get JNull "error" = Throw (ErrorObject (cannot_read_null "error")).
Proof. reflexivity. Qed.

Example ToString_of_an_array :
  ToString (JArr [JStr "a"; JNull; JArr [JBool true; JStr "b"]])
  = Normal "a,,true,b".
Proof. reflexivity. Qed.

Example ToString_of_an_object :
  ToString (JObj [("code", JStr "invalid_api_key")]) = Normal "[object Object]".
Proof. reflexivity. Qed.

(** A member [toString] hides the inherited method, and is not callable. *)
Example ToString_of_an_object_with_toString :
  ToString (JArr [JStr "a"; JObj [("toString", JStr "x")]; JStr "b"])
  = Throw (ErrorObject cannot_convert_object).
Proof. reflexivity. Qed.

Example server_message_present :
  server_message (JObj [("error", JObj [("message", JStr "Invalid API key")])])
  = Some "Invalid API key".
Proof. reflexivity. Qed.

Example server_message_empty :
  server_message (JObj [("error", JObj [("message", JStr "")])]) = None.
Proof. reflexivity. Qed.

Example server_message_absent :
  server_message (JObj [("detail", JStr "Bad gateway")]) = None.
Proof. reflexivity. Qed.

Example server_message_without_text :
  error_message (JObj [("error", JObj [("message", JObj [("toString", JNull)])])])
  = Some (JObj [("toString", JNull)])
  ∧ server_message (JObj [("error", JObj [("message", JObj [("toString", JNull)])])])
    = None.
Proof. split; reflexivity. Qed.

Example too_short_examples :
  too_short None 6000 = true
  ∧ too_short (Some 0%Z) 6000 = true
  ∧ too_short (Some 1000%Z) 1099 = true
  ∧ too_short (Some 1000%Z) 1100 = false.
Proof. repeat split. Qed.

(** ** Running computations *)

Lemma run_bind {A B : Type} (m : Eff A) (k : A → Eff B) (w : World) :
  run (m ≫= k) w =
  match m w with
  | (Normal a, w') => run (k a) w'
  | (Throw _, w') => w'
  end.
Proof. unfold run, mbind, Eff_bind. by destruct (m w) as [[a|e] w']. Qed.

Lemma emitted_app {A : Type} (m : Eff A) (w : World) (es : list Event) :
  trace (run m w) = trace w ++ es → emitted m w = es.
Proof. unfold emitted. intros ->. by rewrite drop_app_length. Qed.

Lemma truthy_string_spec (s : string) : truthy_string s = false ↔ s = "".
Proof.
  unfold truthy_string. destruct (bool_decide_reflect (s = "")); simpl; naive_solver.
Qed.

Lemma world_ext (w1 w2 : World) :
  hook w1 = hook w2 → recorders w1 = recorders w2 →
  recognitions w1 = recognitions w2 → profiles w1 = profiles w2 →
  requests w1 = requests w2 → trace w1 = trace w2 → w1 = w2.
Proof. destruct w1, w2. simpl. by intros -> -> -> -> -> ->. Qed.

Lemma bind_reads {A B : Type} (f : World → A) (k : A → Eff B) (w : World) :
  (reads f ≫= k) w = k (f w) w.
Proof. done. Qed.

Lemma bind_assoc {A B C : Type} (m : Eff A) (k : A → Eff B) (k' : B → Eff C)
    (w : World) :
  ((m ≫= k) ≫= k') w = (m ≫= λ a, k a ≫= k') w.
Proof. unfold mbind, Eff_bind. by destruct (m w) as [[a|e] w']. Qed.

Lemma world_eta (w : World) :
  {| hook := hook w; recorders := recorders w; recognitions := recognitions w;
     profiles := profiles w; requests := requests w; trace := trace w |} = w.
Proof. by destruct w. Qed.

(** *** The rules of [wp] *)

Lemma wp_run {A : Type} (m : Eff A) (Q : World → Prop) (w : World) :
  wp m (λ _ w', Q w') w → Q (run m w).
Proof. done. Qed.

Lemma wp_eq {A : Type} (m : Eff A) Q (w : World) c w' :
  m w = (c, w') → Q c w' → wp m Q w.
Proof. unfold wp. by intros ->. Qed.

Lemma wp_mono {A : Type} (m : Eff A) (Q Q' : Completion A → World → Prop) w :
  wp m Q w → (∀ c w', Q c w' → Q' c w') → wp m Q' w.
Proof. unfold wp. auto. Qed.

Lemma wp_bind {A B : Type} (m : Eff A) (k : A → Eff B) Q w :
  wp m (λ c w', match c with
                | Normal a => wp (k a) Q w'
                | Throw e => Q (Throw e) w'
                end) w →
  wp (m ≫= k) Q w.
Proof. unfold wp, mbind, Eff_bind. by destruct (m w) as [[a|e] w']. Qed.

Lemma wp_ret {A : Type} (a : A) Q w : Q (Normal a) w → wp (mret a) Q w.
Proof. done. Qed.

Lemma wp_throw {A : Type} (e : Thrown) (Q : Completion A → World → Prop) w :
  Q (Throw e) w → wp (throw e) Q w.
Proof. done. Qed.

Lemma wp_settle {A : Type} (c : Completion A) Q w : Q c w → wp (settle c) Q w.
Proof. done. Qed.

Lemma wp_reads {A : Type} (f : World → A) Q w : Q (Normal (f w)) w → wp (reads f) Q w.
Proof. done. Qed.

Lemma wp_modify (f : World → World) Q w : Q (Normal ()) (f w) → wp (modify f) Q w.
Proof. done. Qed.

Lemma wp_emit (e : Event) Q w :
  Q (Normal ()) (with_trace (λ t, t ++ [e]) w) → wp (emit e) Q w.
Proof. done. Qed.

Lemma wp_set (u : Update) Q w :
  Q (Normal ()) (with_hook (apply_update u) (with_trace (λ t, t ++ [ESet u]) w)) →
  wp (set u) Q w.
Proof. done. Qed.

Lemma wp_try_catch {A : Type} (body : Eff A) (handler : Thrown → Eff A) Q w :
  wp body (λ c w', match c with
                   | Normal a => Q (Normal a) w'
                   | Throw e => wp (handler e) Q w'
                   end) w →
  wp (try_catch body handler) Q w.
Proof. unfold wp, try_catch. by destruct (body w) as [[a|e] w']. Qed.

Lemma wp_try_finally {A : Type} (body : Eff A) (finalizer : Eff unit) Q w :
  wp body (λ c w', wp finalizer (λ c' w'', match c' with
                                           | Normal _ => Q c w''
                                           | Throw e => Q (Throw e) w''
                                           end) w') w →
  wp (try_finally body finalizer) Q w.
Proof.
  unfold wp, try_finally. destruct (body w) as [c w']. simpl.
  by destruct (finalizer w') as [[u|e] w''].
Qed.

(** One step of symbolic execution of a computation under [wp]. *)
Ltac wp_step :=
  lazymatch goal with
  | |- wp (_ ≫= _) _ _ => apply wp_bind
  | |- wp (mret _) _ _ => apply wp_ret
  | |- wp (throw _) _ _ => apply wp_throw
  | |- wp (settle _) _ _ => apply wp_settle
  | |- wp (reads _) _ _ => apply wp_reads
  | |- wp (modify _) _ _ => apply wp_modify
  | |- wp (emit _) _ _ => apply wp_emit
  | |- wp (set _) _ _ => apply wp_set
  | |- wp (toast _) _ _ => apply wp_emit
  | |- wp (try_catch _ _) _ _ => apply wp_try_catch
  | |- wp (try_finally _ _) _ _ => apply wp_try_finally
  | |- wp current_render _ _ => apply wp_reads
  | |- wp (recorder_state _) _ _ => apply wp_reads
  | |- wp (getTracks _) _ _ => apply wp_reads
  | |- wp (registry_find _) _ _ => apply wp_reads
  | |- wp (update_recorder _ _) _ _ => apply wp_modify
  | |- wp (update_recognition _ _) _ _ => apply wp_modify
  | |- wp (playIdentificationPrompt _) _ _ => unfold playIdentificationPrompt
  | |- wp (getUserMedia _ _ _) _ _ => unfold getUserMedia
  | |- wp (new_MediaRecorder _ _) _ _ => unfold new_MediaRecorder
  | |- wp (new_SpeechRecognition _) _ _ => unfold new_SpeechRecognition
  | |- wp (recorder_start _ _ _ _) _ _ => unfold recorder_start
  | |- wp (recorder_stop _) _ _ => unfold recorder_stop
  | |- wp (recorder_pause _) _ _ => unfold recorder_pause
  | |- wp (recorder_resume _) _ _ => unfold recorder_resume
  | |- wp (track_stop _ _) _ _ => unfold track_stop
  | |- wp (recognition_stop _) _ _ => unfold recognition_stop
  | |- wp (recognition_start _) _ _ => unfold recognition_start
  | |- wp (fetch _ _) _ _ => unfold fetch
  | |- wp (fetch_send _) _ _ => unfold fetch_send
  | |- wp (fetch_settle _ _) _ _ => unfold fetch_settle
  | |- wp (registry_clear) _ _ => unfold registry_clear
  | |- wp (registry_addProfile _ _) _ _ => unfold registry_addProfile
  | |- wp (onstop_read _) _ _ => unfold onstop_read
  | |- wp (onstop_catch _) _ _ => unfold onstop_catch
  end; cbn beta iota.

(** Projections of a world built by the [with_] functions. *)
Ltac world_simpl :=
  cbn [hook recorders recognitions profiles requests trace
       with_hook with_recorders with_recognitions with_profiles with_requests
       with_trace fst snd] in *.

(** Two results are the same: field by field. *)
Ltac world_eq :=
  f_equal; apply world_ext; world_simpl; rewrite <- ?app_assoc; try reflexivity.

(** ** Starting without a credential *)

(** C3. A call of [startRecording] with an empty credential ([apiKey]
    falsy) returns, having emitted the error notification and nothing
    else: the microphone is not asked for, and no state cell of the hook
    (nor anything else in the world) changes. *)
Theorem startRecording_without_credential
    (apiKey : string) (identificationEnabled : bool) (platform : Platform)
    (now : Z) (w : World) :
  truthy_string apiKey = false →
  let w' := run (startRecording apiKey identificationEnabled platform now) w in
  (startRecording apiKey identificationEnabled platform now w).1 = Normal ()
  ∧ emitted (startRecording apiKey identificationEnabled platform now) w =
    [EToast {| title := "Erro";
               description := "Por favor, insira sua chave da API OpenAI primeiro.";
               variant := Some "destructive" |}]
  ∧ Forall (λ e, is_getUserMedia e = false)
      (emitted (startRecording apiKey identificationEnabled platform now) w)
  ∧ hook w' = hook w
  ∧ recorders w' = recorders w
  ∧ recognitions w' = recognitions w
  ∧ profiles w' = profiles w
  ∧ requests w' = requests w.
Proof.
  intros Hkey w'.
  assert (Hreturns :
    (startRecording apiKey identificationEnabled platform now w).1 = Normal ()).
  { unfold startRecording, current_render. by rewrite bind_reads, Hkey. }
  assert (Hrun : w' = with_trace (λ t, t ++ [EToast
    {| title := "Erro";
       description := "Por favor, insira sua chave da API OpenAI primeiro.";
       variant := Some "destructive" |}]) w).
  { subst w'. unfold startRecording. rewrite run_bind. simpl. by rewrite Hkey. }
  assert (Hemit : emitted (startRecording apiKey identificationEnabled platform now) w =
    [EToast {| title := "Erro";
               description := "Por favor, insira sua chave da API OpenAI primeiro.";
               variant := Some "destructive" |}]).
  { apply emitted_app. fold w'. by rewrite Hrun. }
  rewrite Hemit, Hrun. repeat split; auto.
Qed.

(** ** Pausing and resuming *)

(** C7. When the hook holds no recorder, or one that is not in the
    [recording] state, [pauseRecording] does nothing at all: no state
    setter, no recorder call, no notification, the world is the same.
    Likewise [resumeRecording] when the hook holds no recorder or one that
    is not [paused]. *)
Theorem pause_resume_noop (w : World) :
  (¬ recorder_in recording w → pauseRecording w = (Normal (), w))
  ∧ (¬ recorder_in paused w → resumeRecording w = (Normal (), w)).
Proof.
  split; intros Hnot.
  - unfold pauseRecording, current_render, recorder_state, reads, mbind, Eff_bind.
    destruct (mediaRecorder (hook w)) as [r|] eqn:Hr; [|done].
    case_bool_decide as Hst; [|done].
    destruct Hnot. by exists r.
  - unfold resumeRecording, current_render, recorder_state, reads, mbind, Eff_bind.
    destruct (mediaRecorder (hook w)) as [r|] eqn:Hr; [|done].
    case_bool_decide as Hst; [|done].
    destruct Hnot. by exists r.
Qed.


(** ** Stopping *)

Lemma for_each_track_stop (r : nat) (ks : list nat) (w : World) :
  for_each ks (track_stop r) w =
  (Normal (),
   with_trace (λ t, t ++ (ETrackStop r <$> ks))
     (with_recorders (alter (stop_tracks ks) r) w)).
Proof.
  revert w. induction ks as [|k ks IH]; intros w.
  - simpl. unfold mret, Eff_ret, with_trace, with_recorders. simpl.
    rewrite app_nil_r, (list_alter_id _ (recorders w) r).
    + by rewrite world_eta.
    + by intros [].
  - simpl. unfold mbind, Eff_bind, track_stop at 1, emit, modify, update_recorder.
    simpl. rewrite IH. f_equal.
    unfold with_trace, with_recorders. simpl. rewrite <- app_assoc. simpl.
    f_equal. rewrite list_alter_alter_eq. by apply list_alter_ext.
Qed.

Lemma stop_all_tracks (pre post : list bool) :
  foldl (λ s k, <[k := false]> s) (pre ++ post) (seq (length pre) (length post))
  = pre ++ replicate (length post) false.
Proof.
  revert pre. induction post as [|t post IH]; intros pre; [done|].
  cbn [length seq foldl replicate].
  rewrite (insert_app_r_alt pre (t :: post) (length pre)) by lia.
  rewrite Nat.sub_diag. cbn [insert list_insert].
  rewrite (cons_middle false pre post), (cons_middle false pre (replicate _ _)).
  rewrite !app_assoc.
  replace (S (length pre)) with (length (pre ++ [false]))
    by (rewrite length_app; simpl; lia).
  apply IH.
Qed.

(** C8. When the hook holds a recorder, [stopRecording] stops it (it ends
    [inactive]) and ends every track of its stream, and resets the session
    cells to idle: [isRecording] and [isPaused] false, [mediaRecorder],
    [speechRecognition] and [recordingStartTime] null. [isTranscribing] and
    [transcriptionSegments] are as before, and so are the requests: one that
    is pending stays pending. *)
Theorem stopRecording_resets_session (w : World) (r : nat) (x : Recorder) :
  mediaRecorder (hook w) = Some r →
  recorders w !! r = Some x →
  let w' := run stopRecording w in
  (∃ x', recorders w' !! r = Some x' ∧ state x' = inactive
         ∧ stream x' = replicate (length (stream x)) false)
  ∧ (∃ rest, emitted stopRecording w =
             ERecorderStop r :: (ETrackStop r <$> seq 0 (length (stream x))) ++ rest)
  ∧ isRecording (hook w') = false
  ∧ isPaused (hook w') = false
  ∧ mediaRecorder (hook w') = None
  ∧ speechRecognition (hook w') = None
  ∧ recordingStartTime (hook w') = None
  ∧ isTranscribing (hook w') = isTranscribing (hook w)
  ∧ transcriptionSegments (hook w') = transcriptionSegments (hook w)
  ∧ requests w' = requests w.
Proof.
  intros Hr Hx w'.
  assert (Hw' : ∃ rest,
    hook w' = {| isRecording := false; isPaused := false; mediaRecorder := None;
                 transcriptionSegments := transcriptionSegments (hook w);
                 isTranscribing := isTranscribing (hook w);
                 speechRecognition := None; recordingStartTime := None |}
    ∧ recorders w' = alter (stop_tracks (seq 0 (length (stream x)))) r
                       (alter stopped r (recorders w))
    ∧ requests w' = requests w
    ∧ trace w' = trace w ++ ERecorderStop r
                   :: (ETrackStop r <$> seq 0 (length (stream x))) ++ rest).
  { subst w'. apply wp_run. unfold stopRecording.
    do 2 wp_step. rewrite Hr. repeat wp_step. world_simpl.
    rewrite list_lookup_alter_eq, Hx. cbn [fmap option_fmap option_map default].
    replace (stream (match state x with inactive => x | _ => _ end))
      with (stream x) by (by destruct (state x)).
    eapply wp_eq; [apply for_each_track_stop|]. cbn beta iota.
    wp_step.
    destruct (speechRecognition (hook w)) as [recognition|]; repeat wp_step;
      world_simpl; eexists; rewrite <- !app_assoc;
      repeat split. }
  destruct Hw' as (rest & Hhook & Hrec & Hreq & Htrace).
  split.
  { exists (stop_tracks (seq 0 (length (stream x))) (stopped x)).
    rewrite Hrec, !list_lookup_alter_eq, Hx. split; [reflexivity|]. split.
    - unfold stopped. by destruct (state x) eqn:Hstate.
    - cbn [stop_tracks stream].
      replace (stream (stopped x)) with (stream x)
        by (unfold stopped; by destruct (state x)).
      apply (stop_all_tracks [] (stream x)). }
  split.
  { exists rest. apply emitted_app. done. }
  rewrite Hhook, Hreq. done.
Qed.


(** ** Starting with a credential *)

(** Symbolic execution through the calls whose result the platform
    decides: both ways of completing are followed. *)
Ltac wp_run_all :=
  repeat first
    [ wp_step
    | match goal with
      | |- match ?c with Normal _ => _ | Throw _ => _ end =>
          let H := fresh "Hresult" in destruct c eqn:H; cbn beta iota
      end ].

(** C9. A call of [startRecording] with a non-empty credential and
    identification enabled first clears the voice registry, then plays the
    identification prompt, and only when the prompt has been awaited asks
    for the microphone: the request for the stream is the very next action
    when the prompt completes, and is never made when it fails. With
    identification disabled the registry is not cleared and no prompt is
    played. *)
Theorem identification_before_microphone
    (apiKey : string) (platform : Platform) (now : Z) (w : World) :
  truthy_string apiKey = true →
  (∃ rest,
      emitted (startRecording apiKey true platform now) w =
        ERegistryClear :: EPlayIdentificationPrompt :: rest
      ∧ profiles (run (startRecording apiKey true platform now) w) = []
      ∧ match playIdentificationPrompt_result platform with
        | Normal _ => ∃ rest', rest = EGetUserMedia 16000 1 :: rest'
        | Throw _ => Forall (λ e, is_getUserMedia e = false) rest
        end)
  ∧ profiles (run (startRecording apiKey false platform now) w) = profiles w
  ∧ Forall (λ e, e ≠ ERegistryClear ∧ e ≠ EPlayIdentificationPrompt)
      (emitted (startRecording apiKey false platform now) w).
Proof.
  intros Hkey. split.
  - assert (H : ∃ rest,
      trace (run (startRecording apiKey true platform now) w) =
        trace w ++ ERegistryClear :: EPlayIdentificationPrompt :: rest
      ∧ profiles (run (startRecording apiKey true platform now) w) = []
      ∧ match playIdentificationPrompt_result platform with
        | Normal _ => ∃ rest', rest = EGetUserMedia 16000 1 :: rest'
        | Throw _ => Forall (λ e, is_getUserMedia e = false) rest
        end).
    { apply wp_run. unfold startRecording. do 2 wp_step. rewrite Hkey.
      cbn [negb]. wp_run_all; world_simpl; rewrite <- ?app_assoc;
        (eexists; split; [reflexivity|]; split; [reflexivity|]);
        eauto using Forall_cons, Forall_nil. }
    destruct H as (rest & Htrace & Hprofiles & Hrest).
    exists rest. split; [by apply emitted_app|]. done.
  - assert (H : ∃ es,
      trace (run (startRecording apiKey false platform now) w) = trace w ++ es
      ∧ profiles (run (startRecording apiKey false platform now) w) = profiles w
      ∧ Forall (λ e, e ≠ ERegistryClear ∧ e ≠ EPlayIdentificationPrompt) es).
    { apply wp_run. unfold startRecording. do 2 wp_step. rewrite Hkey.
      cbn [negb]. wp_run_all; world_simpl; rewrite <- ?app_assoc;
        (eexists; split; [reflexivity|]; split; [reflexivity|]);
        cbn [app]; repeat (constructor; [split; discriminate|]); constructor. }
    destruct H as (es & Htrace & Hprofiles & Hes).
    split; [done|]. by rewrite (emitted_app _ _ es).
Qed.


(** ** Live recognition results *)

Lemma registered_find (n : string) (w : World) :
  registered n w ↔ is_Some (find (λ p, bool_decide (name p = n)) (profiles w)).
Proof.
  split.
  - intros (p & Hp & Hname).
    destruct (find _ (profiles w)) as [q|] eqn:Hfind; [by eexists|].
    apply list_elem_of_In in Hp.
    pose proof (find_none _ _ Hfind p Hp) as Hno. simpl in Hno.
    by rewrite bool_decide_eq_false in Hno.
  - intros [q Hfind]. apply find_some in Hfind as [Hq Hname].
    exists q. split; [by apply list_elem_of_In|]. by apply bool_decide_eq_true in Hname.
Qed.

Lemma onresult_body_cases (result : SpeechRecognitionResult) (w : World) :
  (onresult_body result w = (Normal (), w)
   ∧ ∀ n, handleNameRecognition (transcript result) = Some n →
          truthy_string n = true → registered n w)
  ∨ (∃ n, handleNameRecognition (transcript result) = Some n
          ∧ truthy_string n = true ∧ ¬ registered n w
          ∧ onresult_body result w = (Normal (), registration n w)).
Proof.
  unfold onresult_body.
  destruct (handleNameRecognition (transcript result)) as [n|]; [|by left].
  unfold registry_find, reads, mbind, Eff_bind.
  destruct (truthy_string n) eqn:Htruthy; simpl.
  - case_bool_decide as Hfound; simpl.
    + left. split; [done|]. intros ? [= <-] _. by apply registered_find.
    + right. exists n. by rewrite registered_find.
  - left. split; [done|]. intros ? [= <-] ?. congruence.
Qed.

Lemma registered_registration (n m : string) (w : World) :
  registered n (registration m w) ↔ registered n w ∨ n = m.
Proof.
  unfold registered, registration. world_simpl. split.
  - intros (p & Hp & Hname). apply elem_of_app in Hp as [Hp|Hp]; [left; eauto|].
    apply list_elem_of_singleton in Hp as ->. by right.
  - intros [(p & Hp & Hname)| ->].
    + exists p. split; [|done]. apply elem_of_app. by left.
    + eexists. split; [apply elem_of_app; right; apply list_elem_of_singleton; done|done].
Qed.

Lemma onresult_body_keeps (result : SpeechRecognitionResult) (n : string) (w : World) :
  registered n w → registered n (run (onresult_body result) w).
Proof.
  intros Hn. unfold run.
  destruct (onresult_body_cases result w) as [[-> _]|(m & _ & _ & _ & ->)]; [done|].
  apply registered_registration. by left.
Qed.

Lemma for_each_saturated (l : list SpeechRecognitionResult) (w : World) :
  saturated l w → for_each l onresult_body w = (Normal (), w).
Proof.
  induction l as [|result l IH]; intros Hsat; [done|].
  simpl. unfold mbind, Eff_bind.
  destruct (onresult_body_cases result w) as [[-> _]|(n & Hn & Ht & Hnot & _)].
  - apply IH. intros r' n' Hin. apply Hsat. by right.
  - destruct Hnot. apply (Hsat result n); [by left|done..].
Qed.

Lemma for_each_saturates (l : list SpeechRecognitionResult) (w : World) :
  (for_each l onresult_body w).1 = Normal ()
  ∧ saturated l (run (for_each l onresult_body) w)
  ∧ (∀ n, registered n w → registered n (run (for_each l onresult_body) w))
  ∧ (NoDup (name <$> profiles w) →
     NoDup (name <$> profiles (run (for_each l onresult_body) w))).
Proof.
  revert w. induction l as [|result l IH]; intros w.
  { repeat split; auto. intros ?? Hin. by apply elem_of_nil in Hin. }
  assert (Hstep : ∃ w1, onresult_body result w = (Normal (), w1)
    ∧ (∀ n, registered n w → registered n w1)
    ∧ (∀ n, handleNameRecognition (transcript result) = Some n →
            truthy_string n = true → registered n w1)
    ∧ (NoDup (name <$> profiles w) → NoDup (name <$> profiles w1))).
  { destruct (onresult_body_cases result w) as [[Hrun Hreg]|(m & Hm & Ht & Hnot & Hrun)].
    - exists w. auto.
    - exists (registration m w). split; [done|]. split; [|split].
      + intros n Hn. apply registered_registration. by left.
      + intros n Hn _. apply registered_registration. right. congruence.
      + intros Hnodup. unfold registration. world_simpl.
        rewrite fmap_app. apply list.NoDup_app. split; [done|]. split.
        * intros n Hin Hin'. apply list_elem_of_singleton in Hin'. simpl in Hin'.
          subst n. apply Hnot. apply list_elem_of_fmap in Hin as (p & Hname & Hp).
          by exists p.
        * apply NoDup_singleton. }
  destruct Hstep as (w1 & Hrun & Hkeep & Hnew & Hnodup).
  destruct (IH w1) as (Hnormal & Hsat & Hkeep' & Hnodup').
  unfold run in *. simpl. unfold mbind, Eff_bind. rewrite Hrun.
  split; [done|]. split; [|split].
  - intros r' n Hin Hn Ht. apply elem_of_cons in Hin as [->|Hin].
    + apply Hkeep'. by apply Hnew.
    + by apply (Hsat r' n).
  - intros n Hn. by apply Hkeep', Hkeep.
  - intros H. by apply Hnodup', Hnodup.
Qed.

(** C6. When name recognition yields a name that already has a profile in
    the voice registry, the handler adds no profile and emits no
    notification: that round of the loop leaves the world as it is.
    Processing the same result, or the same event, a second time changes
    nothing, and a registry without repeated names stays without repeated
    names: a name is registered at most once. *)
Theorem onresult_registers_at_most_once :
  (∀ result n w,
     handleNameRecognition (transcript result) = Some n →
     registered n w →
     onresult_body result w = (Normal (), w))
  ∧ (∀ result w,
       run (onresult_body result) (run (onresult_body result) w)
       = run (onresult_body result) w)
  ∧ (∀ event w,
       run (onresult event) (run (onresult event) w) = run (onresult event) w)
  ∧ (∀ event w,
       NoDup (name <$> profiles w) →
       NoDup (name <$> profiles (run (onresult event) w))).
Proof.
  split; [|split; [|split]].
  - intros result n w Hn Hreg.
    destruct (onresult_body_cases result w) as [[Hrun _]|(m & Hm & _ & Hnot & _)];
      [done|]. destruct Hnot. congruence.
  - intros result w.
    pose proof (for_each_saturates [result] w) as (_ & Hsat & _).
    pose proof (for_each_saturated [result] _ Hsat) as Hagain.
    assert (Hone : ∀ v, for_each [result] onresult_body v = onresult_body result v).
    { intros v. simpl. unfold mbind, Eff_bind.
      by destruct (onresult_body result v) as [[[]|e] v']. }
    unfold run in *. rewrite !Hone in Hagain. by rewrite Hagain.
  - intros event w. unfold onresult.
    pose proof (for_each_saturates (drop (resultIndex event) (results event)) w)
      as (_ & Hsat & _).
    unfold run at 1. by rewrite (for_each_saturated _ _ Hsat).
  - intros event w. unfold onresult. apply for_each_saturates.
Qed.


(** ** The transcription attempt *)

(** The handler, and the handler cut at its suspension point. *)
Lemma onstop_cut (r : nat) (now : Z) (outcome : FetchOutcome) (w : World) :
  onstop r now outcome w =
  (sent ← onstop_until_fetch r now;
   match sent with
   | Some id => onstop_from_fetch id outcome
   | None => mret ()
   end) w.
Proof.
  unfold onstop, onstop_until_fetch.
  rewrite bind_assoc, !bind_reads.
  destruct (recorders w !! r ≫= _) as [[x closure]|]; [|done].
  destruct (too_short _ now); [done|].
  unfold onstop_from_fetch, fetch, fetch_send, set, emit, modify, reads, try_finally,
    try_catch, mbind, Eff_bind, mret, Eff_ret.
  reflexivity.
Qed.

Lemma decide_json_null (doc : json) : doc = JNull ∨ doc ≠ JNull.
Proof. destruct doc; first [by left | by right]. Qed.

(** What the handler does with a document that is not [null] and whose
    status is not a success: it throws, within its [try]. *)
Lemma error_message_cases (doc : json) :
  match get_opt (prop doc "error") "message" with
  | Some m =>
      if truthy (get_opt (prop doc "error") "message") then ToString m
      else Normal "Falha na transcrição"
  | None => Normal "Falha na transcrição"
  end
  = match error_message doc with
    | Some m => ToString m
    | None => Normal "Falha na transcrição"
    end.
Proof.
  unfold error_message. destruct (get_opt (prop doc "error") "message") as [m|]; [|done].
  by destruct (truthy (Some m)).
Qed.

(** Every outcome is a success or a failure. *)
Lemma outcome_cases (outcome : FetchOutcome) :
  (∃ segments, success outcome segments) ∨ (∃ d, failure outcome d).
Proof.
  destruct outcome as [e|r]; [right; eexists; constructor|].
  destruct (json_body r) as [doc|e] eqn:Hbody;
    [|right; eexists; by apply failure_unparsable].
  destruct (ok r) eqn:Hok.
  - destruct (processTranscriptionResult doc) as [segments|e] eqn:Hmap.
    + left. exists segments, r, doc. done.
    + right. eexists. by eapply failure_mapping.
  - right. destruct (decide_json_null doc) as [->|Hdoc];
      [eexists; by apply failure_null|].
    destruct (error_message doc) as [m|] eqn:Hmessage;
      [|eexists; by eapply failure_status].
    destruct (ToString m) as [text|e] eqn:Htext; eexists;
      [by eapply failure_server | by eapply failure_conversion].
Qed.

Lemma onstop_from_fetch_failure (id : nat) (outcome : FetchOutcome) (d : string)
    (w : World) :
  failure outcome d →
  ∃ e, onstop_from_fetch id outcome w = (Normal (), reported e d (settled id w)).
Proof.
  intros Hfail.
  assert (H : wp (onstop_from_fetch id outcome)
                (λ c w', ∃ e, (c, w') = (Normal (), reported e d (settled id w))) w).
  { unfold onstop_from_fetch.
    destruct Hfail as [e|r e Hbody|r Hok Hbody|r doc Hok Hbody Hdoc Hmessage
                      |r doc m text Hok Hbody Hdoc Hmessage Htext
                      |r doc m e Hok Hbody Hdoc Hmessage Htext
                      |r doc e Hok Hbody Hmap].
    - repeat wp_step. exists e. unfold reported, settled. world_eq.
    - repeat wp_step. destruct (ok r); cbn [negb]; repeat wp_step; rewrite Hbody;
        cbn beta iota; repeat wp_step; exists e; unfold reported, settled; world_eq.
    - repeat wp_step. rewrite Hok. cbn [negb]. repeat wp_step. rewrite Hbody.
      cbn beta iota. repeat wp_step. cbn [get]. cbn beta iota. repeat wp_step.
      eexists. unfold reported, settled. world_eq.
    - repeat wp_step. rewrite Hok. cbn [negb]. repeat wp_step. rewrite Hbody.
      cbn beta iota. repeat wp_step.
      replace (get doc "error") with (Normal (A := value) (prop doc "error"))
        by (by destruct doc).
      cbn beta iota. repeat wp_step. rewrite error_message_cases, Hmessage.
      repeat wp_step. eexists. unfold reported, settled. world_eq.
    - repeat wp_step. rewrite Hok. cbn [negb]. repeat wp_step. rewrite Hbody.
      cbn beta iota. repeat wp_step.
      replace (get doc "error") with (Normal (A := value) (prop doc "error"))
        by (by destruct doc).
      cbn beta iota. repeat wp_step. rewrite error_message_cases, Hmessage, Htext.
      repeat wp_step. eexists. unfold reported, settled. world_eq.
    - repeat wp_step. rewrite Hok. cbn [negb]. repeat wp_step. rewrite Hbody.
      cbn beta iota. repeat wp_step.
      replace (get doc "error") with (Normal (A := value) (prop doc "error"))
        by (by destruct doc).
      cbn beta iota. repeat wp_step. rewrite error_message_cases, Hmessage, Htext.
      repeat wp_step. exists e. unfold reported, settled. world_eq.
    - repeat wp_step. rewrite Hok. cbn [negb]. repeat wp_step. rewrite Hbody.
      cbn beta iota. repeat wp_step. rewrite Hmap. cbn beta iota. repeat wp_step.
      exists e. unfold reported, settled. world_eq. }
  unfold wp in H. destruct (onstop_from_fetch id outcome w). done.
Qed.

Lemma onstop_from_fetch_success (id : nat) (outcome : FetchOutcome)
    (segments : list TranscriptionSegment) (w : World) :
  success outcome segments →
  onstop_from_fetch id outcome w = (Normal (), transcribed segments (settled id w)).
Proof.
  intros (r & doc & -> & Hok & Hbody & Hmap).
  assert (H : wp (onstop_from_fetch id (FetchResolves r))
                (λ c w', (c, w') = (Normal (), transcribed segments (settled id w))) w).
  { unfold onstop_from_fetch. repeat wp_step. rewrite Hok. cbn [negb].
    repeat wp_step. rewrite Hbody. cbn beta iota. repeat wp_step. rewrite Hmap.
    cbn beta iota. repeat wp_step. unfold transcribed, settled. world_eq. }
  unfold wp in H. by destruct (onstop_from_fetch id (FetchResolves r) w).
Qed.


Lemma onstop_until_fetch_sends (r : nat) (now : Z) (w : World)
    (x : Recorder) (closure : Closure) :
  recorders w !! r = Some x →
  onstop_closure x = Some closure →
  too_short (seen_recordingStartTime closure) now = false →
  onstop_until_fetch r now w =
  (Normal (Some (length (requests w))),
   requested (transcription_request (new_Blob (audioChunks x) "audio/wav")
                (seen_apiKey closure)) w).
Proof.
  intros Hx Hclosure Hlong. unfold onstop_until_fetch. rewrite bind_reads, Hx.
  cbn [mbind option_bind]. rewrite Hclosure. cbn [fmap option_fmap option_map].
  rewrite Hlong.
  unfold fetch_send, set, emit, modify, reads, mbind, Eff_bind, mret, Eff_ret, requested.
  world_eq.
Qed.

Lemma onstop_until_fetch_rejects (r : nat) (now : Z) (w : World)
    (x : Recorder) (closure : Closure) :
  recorders w !! r = Some x →
  onstop_closure x = Some closure →
  too_short (seen_recordingStartTime closure) now = true →
  onstop_until_fetch r now w =
  (Normal None, with_trace (λ t, t ++ [EToast too_short_warning]) w).
Proof.
  intros Hx Hclosure Hshort. unfold onstop_until_fetch. rewrite bind_reads, Hx.
  cbn [mbind option_bind]. rewrite Hclosure. cbn [fmap option_fmap option_map].
  by rewrite Hshort.
Qed.

(** C4 (as amended). When the transcription attempt fails (the request is
    rejected, the status is not a success, the body cannot be parsed, or the
    mapping of the result throws) the handler emits one notification, the
    error notification, and leaves [transcriptionSegments] as they were. Its
    description is the text of the server-provided [error.message] when
    the error document has a truthy one, the generic text when the document
    has none, and otherwise the message of the error that was thrown: the
    parser's, the network's, or the engine's own when the body is [null] or
    the [error.message] has no conversion to a string. On every outcome,
    success or failure, the transcribing flag is false when the handler
    completes. *)
Theorem transcription_failure_is_reported
    (r : nat) (now : Z) (outcome : FetchOutcome) (w : World)
    (x : Recorder) (closure : Closure) :
  recorders w !! r = Some x →
  onstop_closure x = Some closure →
  too_short (seen_recordingStartTime closure) now = false →
  let w' := run (onstop r now outcome) w in
  isTranscribing (hook w') = false
  ∧ ∀ d, failure outcome d →
         toasts (onstop r now outcome) w = [EToast (failure_toast d)]
         ∧ transcriptionSegments (hook w') = transcriptionSegments (hook w).
Proof.
  intros Hx Hclosure Hlong w'.
  pose proof (onstop_until_fetch_sends r now w x closure Hx Hclosure Hlong) as Hsend.
  assert (Hrun : onstop r now outcome w =
                 onstop_from_fetch (length (requests w)) outcome
                   (requested (transcription_request
                                 (new_Blob (audioChunks x) "audio/wav")
                                 (seen_apiKey closure)) w)).
  { rewrite onstop_cut. unfold mbind at 1, Eff_bind at 1. by rewrite Hsend. }
  split.
  - subst w'. unfold run. rewrite Hrun.
    destruct (outcome_cases outcome) as [[segments Hok]|[d Hfail]].
    + by rewrite (onstop_from_fetch_success _ _ _ _ Hok).
    + by destruct (onstop_from_fetch_failure (length (requests w)) _ _
                     (requested (transcription_request
                                   (new_Blob (audioChunks x) "audio/wav")
                                   (seen_apiKey closure)) w) Hfail) as [e ->].
  - intros d Hfail.
    destruct (onstop_from_fetch_failure (length (requests w)) _ _
                (requested (transcription_request
                              (new_Blob (audioChunks x) "audio/wav")
                              (seen_apiKey closure)) w) Hfail) as [e He].
    split.
    + unfold toasts.
      erewrite emitted_app; [|unfold run; rewrite Hrun, He; unfold reported, settled,
        requested; world_simpl; rewrite <- !app_assoc; reflexivity].
      reflexivity.
    + subst w'. unfold run. by rewrite Hrun, He.
Qed.


(** ** Invariants of the event loop *)

(** *** Computations that keep an invariant *)

Section Preserves.

Variable I : World → Prop.

Lemma preserves_bind {A B : Type} (m : Eff A) (k : A → Eff B) :
  preserves I m → (∀ a, preserves I (k a)) → preserves I (m ≫= k).
Proof.
  intros Hm Hk w Hw. rewrite run_bind. specialize (Hm w Hw). unfold run in Hm.
  destruct (m w) as [[a|e] w']; [by apply Hk|done].
Qed.

Lemma preserves_ret {A : Type} (a : A) : preserves I (mret a).
Proof. by intros w. Qed.

Lemma preserves_throw {A : Type} (e : Thrown) : preserves I (throw (A := A) e).
Proof. by intros w. Qed.

Lemma preserves_settle {A : Type} (c : Completion A) : preserves I (settle c).
Proof. by intros w. Qed.

Lemma preserves_reads {A : Type} (f : World → A) : preserves I (reads f).
Proof. by intros w. Qed.

Lemma preserves_modify (f : World → World) :
  (∀ w, I w → I (f w)) → preserves I (modify f).
Proof. intros Hf w. apply Hf. Qed.

Lemma preserves_try_catch {A : Type} (body : Eff A) (handler : Thrown → Eff A) :
  preserves I body → (∀ e, preserves I (handler e)) →
  preserves I (try_catch body handler).
Proof.
  intros Hbody Hhandler w Hw. specialize (Hbody w Hw). unfold run, try_catch in *.
  destruct (body w) as [[a|e] w']; [done|by apply Hhandler].
Qed.

Lemma preserves_try_finally {A : Type} (body : Eff A) (finalizer : Eff unit) :
  preserves I body → preserves I finalizer →
  preserves I (try_finally body finalizer).
Proof.
  intros Hbody Hfin w Hw. specialize (Hbody w Hw). unfold run, try_finally in *.
  destruct (body w) as [c w']. specialize (Hfin w' Hbody). unfold run in Hfin.
  simpl in *. by destruct (finalizer w') as [[u|e] w''].
Qed.

Lemma preserves_for_each {A : Type} (l : list A) (f : A → Eff unit) :
  (∀ x, preserves I (f x)) → preserves I (for_each l f).
Proof.
  intros Hf. induction l as [|x l IH]; [apply preserves_ret|].
  simpl. apply preserves_bind; auto.
Qed.

End Preserves.

(** Structural steps of a proof that a computation keeps an invariant; the
    steps about the invariant itself are left to [tac]. *)
Ltac preserves_with tac :=
  repeat first
    [ progress tac
    | apply preserves_ret | apply preserves_throw | apply preserves_settle
    | apply preserves_reads
    | apply preserves_bind; [|intros ?]
    | apply preserves_try_catch; [|intros ?]
    | apply preserves_try_finally
    | apply preserves_for_each; intros ?
    | lazymatch goal with
      | |- preserves _ (match ?x with _ => _ end) => destruct x
      end ].

(** *** No live recognition *)

Lemma nlr_emit (e : Event) :
  is_recognition_call e = false → is_setSpeechRecognition_object e = false →
  preserves no_live_recognition (emit e).
Proof.
  intros H1 H2 w (Hhook & Htrace & Hlisten). split; [done|]. split; [|done].
  unfold run, emit, modify. world_simpl. apply Forall_app. split; [done|].
  by apply Forall_singleton.
Qed.

Lemma nlr_set (u : Update) :
  (∀ r, u ≠ setSpeechRecognition (Some r)) →
  preserves no_live_recognition (set u).
Proof.
  intros Hu w (Hhook & Htrace & Hlisten). unfold run, set, emit, modify, mbind, Eff_bind.
  world_simpl. split; [|split; [|done]].
  - destruct u as [| | | | |[r|]|]; try done. by destruct (Hu r).
  - apply Forall_app. split; [done|]. apply Forall_singleton. split; [done|].
    destruct u as [| | | | |[r|]|]; try done. by destruct (Hu r).
Qed.

Lemma nlr_update_recorder (r : nat) (f : Recorder → Recorder) :
  preserves no_live_recognition (update_recorder r f).
Proof. by intros w H. Qed.

Lemma nlr_requests (f : list (Request * bool) → list (Request * bool)) :
  preserves no_live_recognition (modify (with_requests f)).
Proof. by intros w H. Qed.

Lemma nlr_recorders (f : list Recorder → list Recorder) :
  preserves no_live_recognition (modify (with_recorders f)).
Proof. by intros w H. Qed.

Lemma nlr_profiles (f : list VoiceProfile → list VoiceProfile) :
  preserves no_live_recognition (modify (with_profiles f)).
Proof. by intros w H. Qed.

Lemma nlr_new_recognition (x : Recognition) :
  listening x = false →
  preserves no_live_recognition (modify (with_recognitions (λ l, l ++ [x]))).
Proof.
  intros Hx w (Hhook & Htrace & Hlisten). split; [done|]. split; [done|].
  unfold run, modify. world_simpl. apply Forall_app. split; [done|].
  by apply Forall_singleton.
Qed.

Lemma nlr_update_recognition (r : nat) (f : Recognition → Recognition) :
  (∀ x, listening (f x) = listening x) →
  preserves no_live_recognition (update_recognition r f).
Proof.
  intros Hf w (Hhook & Htrace & Hlisten). split; [done|]. split; [done|].
  unfold run, update_recognition, modify. world_simpl.
  apply Forall_alter; [done|]. intros x _ Hx. by rewrite Hf.
Qed.

Ltac nlr_step :=
  first
    [ apply nlr_emit; reflexivity
    | apply nlr_set; discriminate
    | apply nlr_update_recorder
    | apply nlr_requests
    | apply nlr_recorders
    | apply nlr_profiles
    | apply nlr_new_recognition; reflexivity
    | apply nlr_update_recognition; reflexivity ].

Ltac nlr := preserves_with nlr_step.

Lemma nlr_startRecording (apiKey : string) (identificationEnabled : bool)
    (platform : Platform) (now : Z) :
  preserves no_live_recognition
    (startRecording apiKey identificationEnabled platform now).
Proof.
  unfold startRecording, current_render, toast, playIdentificationPrompt, getUserMedia,
    new_MediaRecorder, new_SpeechRecognition, recorder_start, registry_clear.
  nlr.
Qed.


(** From the world to the computation: what remains to run keeps the
    invariant. *)
Ltac preserves_from w Hw :=
  lazymatch goal with
  | |- ?I (?m w).2 =>
      cut (preserves I m); [let H := fresh in intros H; exact (H w Hw)|]
  end.

Lemma nlr_stopRecording : preserves no_live_recognition stopRecording.
Proof.
  intros w Hw. pose proof Hw as (Hnone & _ & _).
  unfold run, stopRecording, current_render. rewrite bind_reads, Hnone.
  destruct (mediaRecorder (hook w)) as [r|]; [|done].
  preserves_from w Hw. unfold recorder_stop, getTracks, track_stop. nlr.
Qed.

Lemma nlr_pauseRecording : preserves no_live_recognition pauseRecording.
Proof.
  intros w Hw. pose proof Hw as (Hnone & _ & _).
  unfold run, pauseRecording, current_render. rewrite bind_reads, Hnone.
  destruct (mediaRecorder (hook w)) as [r|]; [|done].
  preserves_from w Hw. unfold recorder_state, recorder_pause, recorder_state, toast. nlr.
Qed.

Lemma nlr_resumeRecording : preserves no_live_recognition resumeRecording.
Proof.
  intros w Hw. pose proof Hw as (Hnone & _ & _).
  unfold run, resumeRecording, current_render. rewrite bind_reads, Hnone.
  destruct (mediaRecorder (hook w)) as [r|]; [|done].
  preserves_from w Hw. unfold recorder_state, recorder_resume, recorder_state, toast. nlr.
Qed.

Lemma nlr_fire (l : Label) : preserves no_live_recognition (fire l).
Proof.
  destruct l as [apiKey identificationEnabled platform now| | | |r data|r data now
                |id outcome|recognition event]; cbn [fire].
  - apply nlr_startRecording.
  - apply nlr_stopRecording.
  - apply nlr_pauseRecording.
  - apply nlr_resumeRecording.
  - unfold ondataavailable. nlr.
  - unfold ondataavailable, onstop_until_fetch, toast, fetch_send. nlr.
  - unfold onstop_from_fetch, fetch_settle, onstop_read, onstop_catch, toast. nlr.
  - unfold onresult, onresult_body, registry_find, registry_addProfile, toast. nlr.
Qed.

(** C5. In every world the hook can reach, by any sequence of calls of
    [startRecording], [pauseRecording], [resumeRecording], [stopRecording]
    and of recorder, request and recognition events, the [speechRecognition]
    cell is null, [setSpeechRecognition] was never called with a recogniser,
    no recogniser was ever started or stopped, and none is listening. *)
Theorem speechRecognition_is_never_set (w : World) :
  reachable w → no_live_recognition w.
Proof.
  induction 1 as [registry|w l w' _ IH Hstep].
  - split; [done|]. split; constructor.
  - unfold step in Hstep. destruct (enabled l w); [|done].
    injection Hstep as <-. by apply nlr_fire.
Qed.


(** *** The session cells *)

(** Symbolic execution along every path, also through the tests of the
    code. *)
Ltac wp_paths :=
  repeat first
    [ wp_step
    | lazymatch goal with
      | |- match ?c with Normal _ => _ | Throw _ => _ end =>
          let H := fresh "Hresult" in destruct c eqn:H; cbn beta iota
      | |- wp (match ?x with _ => _ end) _ _ =>
          let H := fresh "Hcase" in destruct x eqn:H
      end ].

Ltac session_solve :=
  world_simpl; unfold session_consistent in *;
  cbn [apply_update isRecording isPaused mediaRecorder transcriptionSegments
       isTranscribing speechRecognition recordingStartTime] in *;
  unfold is_Some in *; try naive_solver.

Lemma session_stopRecording (w : World) :
  session_consistent (hook w) → session_consistent (hook (run stopRecording w)).
Proof.
  intros Hsession. apply wp_run. unfold stopRecording. do 2 wp_step.
  destruct (mediaRecorder (hook w)) as [r|] eqn:Hr; [|by wp_step].
  repeat wp_step. eapply wp_eq; [apply for_each_track_stop|]. cbn beta iota.
  wp_paths; session_solve.
Qed.

Lemma session_fire (l : Label) (w : World) :
  session_consistent (hook w) → session_consistent (hook (run (fire l) w)).
Proof.
  intros Hsession.
  destruct l as [apiKey identificationEnabled platform now| | | |r data|r data now
                |id outcome|recognition event]; cbn [fire].
  - apply wp_run. unfold startRecording. wp_paths; session_solve.
  - by apply session_stopRecording.
  - apply wp_run. unfold pauseRecording. wp_paths; session_solve.
  - apply wp_run. unfold resumeRecording. wp_paths; session_solve.
  - apply wp_run. unfold ondataavailable. wp_paths; session_solve.
  - apply wp_run. unfold ondataavailable, onstop_until_fetch. wp_paths; session_solve.
  - apply wp_run. unfold onstop_from_fetch. wp_paths; session_solve.
  - apply (preserves_for_each (λ w', session_consistent (hook w'))); [|done].
    intros result w' Hsession'. apply wp_run. unfold onresult_body. wp_paths; session_solve.
Qed.


Lemma reachable_session (w : World) :
  reachable w → session_consistent (hook w).
Proof.
  induction 1 as [registry|w l w' _ IH Hstep].
  - split; [by intros [? [=]]|done].
  - unfold step in Hstep. destruct (enabled l w); [|done].
    injection Hstep as <-. by apply session_fire.
Qed.

(** *** The recorder of the hook *)

Lemma store_emit (e : Event) : preserves recorder_in_store (emit e).
Proof. by intros w H. Qed.

Lemma store_set (u : Update) :
  (∀ r, u ≠ setMediaRecorder (Some r)) → preserves recorder_in_store (set u).
Proof.
  intros Hu w H r. unfold run, set, emit, modify, mbind, Eff_bind. world_simpl.
  destruct u as [| |[r'|]| | | |]; cbn [apply_update mediaRecorder]; try apply H;
    [by destruct (Hu r')|done].
Qed.

Lemma store_update_recorder (r : nat) (f : Recorder → Recorder) :
  preserves recorder_in_store (update_recorder r f).
Proof.
  intros w H r'. unfold run, update_recorder, modify. world_simpl.
  rewrite length_alter. apply H.
Qed.

Lemma store_other (f : World → World) :
  (∀ w, hook (f w) = hook w ∧ recorders (f w) = recorders w) →
  preserves recorder_in_store (modify f).
Proof.
  intros Hf w H r. unfold run, modify. cbn [snd].
  destruct (Hf w) as [-> ->]. apply H.
Qed.

Ltac store_step :=
  first
    [ apply store_emit
    | apply store_set; discriminate
    | apply store_update_recorder
    | apply store_other; intros ?; split; reflexivity ].

Lemma store_fire (l : Label) : preserves recorder_in_store (fire l).
Proof.
  destruct l as [apiKey identificationEnabled platform now| | | |r data|r data now
                |id outcome|recognition event]; cbn [fire].
  - intros w H. apply wp_run. unfold startRecording.
    wp_paths; unfold recorder_in_store in *; world_simpl; intros r;
      cbn [apply_update mediaRecorder];
      rewrite ?length_alter, ?length_app; cbn [length];
      first [ intros [= <-]; lia | intros Hr; specialize (H r Hr); lia ].
  - unfold stopRecording, current_render, recorder_stop, getTracks, track_stop,
      recognition_stop, update_recognition.
    preserves_with store_step.
  - unfold pauseRecording, current_render, recorder_state, recorder_pause,
      recorder_state, recognition_stop, update_recognition, toast.
    preserves_with store_step.
  - unfold resumeRecording, current_render, recorder_state, recorder_resume,
      recorder_state, recognition_start, update_recognition, toast.
    preserves_with store_step.
  - unfold ondataavailable. preserves_with store_step.
  - unfold ondataavailable, onstop_until_fetch, toast, fetch_send.
    preserves_with store_step.
  - unfold onstop_from_fetch, fetch_settle, onstop_read, onstop_catch, toast.
    preserves_with store_step.
  - unfold onresult, onresult_body, registry_find, registry_addProfile, toast.
    preserves_with store_step.
Qed.

(** In every world the hook can reach, the recorder it holds exists. *)
Lemma reachable_recorder_in_store (w : World) (r : nat) :
  reachable w → mediaRecorder (hook w) = Some r → is_Some (recorders w !! r).
Proof.
  intros Hreach Hr. apply lookup_lt_is_Some. revert r Hr.
  change (recorder_in_store w).
  induction Hreach as [registry|w l w' _ IH Hstep]; [by intros r|].
  unfold step in Hstep. destruct (enabled l w); [|done].
  injection Hstep as <-. by apply store_fire.
Qed.


Lemma steps_reachable (ls : list Label) (w w' : World) :
  reachable w → steps ls w = Some w' → reachable w'.
Proof.
  revert w. induction ls as [|l ls IH]; intros w Hw; simpl.
  - by intros [= <-].
  - destruct (step l w) as [w1|] eqn:Hstep; [|done]. simpl.
    apply IH. by eapply reachable_step.
Qed.

(** C10. In every world the hook can reach, [isPaused] true implies
    [isRecording] true and a [mediaRecorder] that is not null: the hook is
    never paused while idle. *)
Theorem paused_only_while_recording (w : World) :
  reachable w →
  isPaused (hook w) = true →
  isRecording (hook w) = true ∧ is_Some (mediaRecorder (hook w)).
Proof.
  intros Hreach Hpaused. destruct (reachable_session w Hreach) as [Hrec Hmedia].
  auto.
Qed.


(** ** The length check of [onstop] *)

(** The recorder a successful [startRecording] creates: its [onstop]
    handler closed over the [recordingStartTime] of the render that made the
    call, not over the time this recording starts at. *)
Lemma startRecording_closure
    (apiKey : string) (platform : Platform) (now : Z) (w : World)
    (tracks : list MediaStreamTrack) :
  truthy_string apiKey = true →
  getUserMedia_result platform = Normal tracks →
  new_MediaRecorder_result platform = Normal () →
  new_SpeechRecognition_result platform = Normal () →
  start_result platform = Normal () →
  let w' := run (startRecording apiKey false platform now) w in
  recorders w' !! length (recorders w) =
    Some {| state := recording; stream := tracks; audioChunks := [];
            onstop_closure :=
              Some {| seen_recordingStartTime := recordingStartTime (hook w);
                      seen_apiKey := apiKey |};
            started_at := Some now; stop_event_queued := false |}
  ∧ mediaRecorder (hook w') = Some (length (recorders w))
  ∧ recordingStartTime (hook w') = Some now.
Proof.
  intros Hkey Hmic Hrecorder Hrecognition Hstart w'. subst w'.
  apply wp_run. unfold startRecording. do 2 wp_step. rewrite Hkey. cbn [negb].
  repeat wp_step. rewrite Hmic. cbn beta iota.
  repeat wp_step. rewrite Hrecorder. cbn beta iota.
  repeat wp_step. rewrite Hrecognition. cbn beta iota.
  repeat wp_step. rewrite Hstart. cbn beta iota.
  repeat wp_step. world_simpl. split; [|done].
  rewrite !list_lookup_alter_eq, lookup_app_r, Nat.sub_diag by done.
  reflexivity.
Qed.

(** A recording started while the hook is idle ([recordingStartTime] null)
    is found too short whenever it is stopped. *)
Lemma too_short_from_idle (now : Z) : too_short None now = true.
Proof. done. Qed.

(** With a start time that is truthy and at least 100 ms old, a success
    status and a result that maps to [segments], the handler sets the flag,
    sends the request, stores the segments and clears the flag. *)
Lemma onstop_transcribes
    (r : nat) (now : Z) (outcome : FetchOutcome) (w : World)
    (x : Recorder) (closure : Closure) (segments : list TranscriptionSegment) :
  recorders w !! r = Some x →
  onstop_closure x = Some closure →
  too_short (seen_recordingStartTime closure) now = false →
  success outcome segments →
  let req := transcription_request (new_Blob (audioChunks x) "audio/wav")
               (seen_apiKey closure) in
  emitted (onstop r now outcome) w =
    [ESet (setIsTranscribing true); EFetch req;
     ESet (setTranscriptionSegments segments);
     EToast {| title := "Transcrição concluída";
               description := "A ata da reunião está pronta.";
               variant := None |};
     ESet (setIsTranscribing false)]
  ∧ transcriptionSegments (hook (run (onstop r now outcome) w)) = segments
  ∧ isTranscribing (hook (run (onstop r now outcome) w)) = false.
Proof.
  intros Hx Hclosure Hlong Hok req.
  assert (Hrun : onstop r now outcome w =
                 (Normal (), transcribed segments
                               (settled (length (requests w)) (requested req w)))).
  { rewrite onstop_cut. unfold mbind at 1, Eff_bind at 1.
    rewrite (onstop_until_fetch_sends r now w x closure Hx Hclosure Hlong).
    by apply onstop_from_fetch_success. }
  unfold run. rewrite Hrun. split; [|done].
  apply emitted_app. unfold run. rewrite Hrun. unfold transcribed, settled, requested.
  world_simpl. by rewrite <- !app_assoc.
Qed.

Lemma onstop_rejects_null_start
    (r : nat) (now : Z) (outcome : FetchOutcome) (w : World)
    (x : Recorder) (closure : Closure) :
  recorders w !! r = Some x →
  onstop_closure x = Some closure →
  seen_recordingStartTime closure = None →
  onstop r now outcome w =
  (Normal (), with_trace (λ t, t ++ [EToast too_short_warning]) w).
Proof.
  intros Hx Hclosure Hnull. rewrite onstop_cut. unfold mbind, Eff_bind.
  rewrite (onstop_until_fetch_rejects r now w x closure Hx Hclosure); [done|].
  by rewrite Hnull.
Qed.

(** C1 (the code at the failing input). A recording is started from the
    first render with a valid credential at clock 1000 and stopped; its
    [stop] event is dispatched at clock 6000, five seconds after the start.
    The handler finds the recording too short: it emits the warning, sets
    no flag and sends no request, so that no response can ever be
    delivered and the segments stay empty. *)
Theorem five_second_recording_is_rejected (registry : list VoiceProfile) :
  ∃ w2 w3,
    steps [CallStart "sk-valid" false Sample.granted 1000; CallStop]
      (initial_world registry) = Some w2
    ∧ started_at <$> recorders w2 !! 0 = Some (Some 1000%Z)
    ∧ step (Stopped 0 Sample.chunk 6000) w2 = Some w3
    ∧ trace w3 = trace w2 ++ [EToast too_short_warning]
    ∧ Forall (λ e, is_fetch e = false ∧ e ≠ ESet (setIsTranscribing true)) (trace w3)
    ∧ requests w3 = []
    ∧ hook w3 = initial_hook
    ∧ ∀ id outcome, step (Settled id outcome) w3 = None.
Proof.
  eexists _, _. split; [vm_compute; reflexivity|].
  split; [reflexivity|]. split; [vm_compute; reflexivity|].
  split; [reflexivity|]. split; [|split; [reflexivity|split; [reflexivity|]]].
  - cbn [trace app]. repeat (constructor; [split; [reflexivity|discriminate]|]).
    constructor.
  - intros id outcome. unfold step. cbn [enabled requests].
    by rewrite lookup_nil.
Qed.

(** C2 (the code at the failing input). A second recording is started at
    clock 6000 while a first one, started at clock 1000, is still running,
    and is stopped; its [stop] event is dispatched at clock 6050, 50 ms
    after its start. The handler measures from the start of the first
    recording: it sets the flag and sends the request. *)
Theorem fifty_millisecond_recording_is_submitted (registry : list VoiceProfile) :
  let req := transcription_request
               (new_Blob [Sample.chunk] "audio/wav") "sk-valid" in
  ∃ w3 w4,
    steps [CallStart "sk-valid" false Sample.granted 1000;
           CallStart "sk-valid" false Sample.granted 6000;
           CallStop] (initial_world registry) = Some w3
    ∧ started_at <$> recorders w3 !! 1 = Some (Some 6000%Z)
    ∧ step (Stopped 1 Sample.chunk 6050) w3 = Some w4
    ∧ trace w4 = trace w3 ++ [ESet (setIsTranscribing true); EFetch req]
    ∧ isTranscribing (hook w4) = true
    ∧ requests w4 = [(req, true)].
Proof.
  intros req. eexists _, _. split; [vm_compute; reflexivity|].
  split; [reflexivity|]. split; [vm_compute; reflexivity|].
  repeat split.
Qed.


(** * Further properties *)

(** ** Buffering the audio *)

Lemma ondataavailable_run (r : nat) (data : Blob) (w : World) (x : Recorder) :
  recorders w !! r = Some x →
  ∃ x', recorders (run (ondataavailable r data) w) !! r = Some x'
        ∧ audioChunks x' = audioChunks x ++ filter kept [data]
        ∧ state x' = state x
        ∧ onstop_closure x' = onstop_closure x
        ∧ stop_event_queued x' = stop_event_queued x
        ∧ hook (run (ondataavailable r data) w) = hook w
        ∧ trace (run (ondataavailable r data) w) = trace w
        ∧ requests (run (ondataavailable r data) w) = requests w.
Proof.
  intros Hx. unfold ondataavailable, run, update_recorder, modify.
  rewrite filter_cons, filter_nil. unfold kept at 1.
  destruct (decide (0 < size data)) as [Hsize|Hsize].
  - rewrite bool_decide_eq_true_2 by done. world_simpl.
    rewrite list_lookup_alter_eq, Hx. eexists. split; [reflexivity|]. done.
  - rewrite bool_decide_eq_false_2 by done. exists x. rewrite app_nil_r. done.
Qed.

(** X1. The time slices a recording recorder delivers are buffered in the
    order they arrive, the empty ones being dropped: the audio assembled
    from the buffer has exactly the bytes delivered, in order. Delivering
    data touches neither the hook state, nor the trace, nor the requests. *)
Theorem chunks_are_buffered_in_order
    (w : World) (r : nat) (x : Recorder) (datas : list Blob) :
  recorders w !! r = Some x →
  state x = recording →
  ∃ w' x',
    steps (DataAvailable r <$> datas) w = Some w'
    ∧ recorders w' !! r = Some x'
    ∧ audioChunks x' = audioChunks x ++ filter kept datas
    ∧ blob_bytes (new_Blob (audioChunks x') "audio/wav")
      = blob_bytes (new_Blob (audioChunks x) "audio/wav")
        ++ concat (blob_bytes <$> datas)
    ∧ state x' = recording
    ∧ hook w' = hook w
    ∧ trace w' = trace w
    ∧ requests w' = requests w.
Proof.
  revert w x. induction datas as [|data datas IH]; intros w x Hx Hstate.
  { exists w, x. simpl. rewrite !app_nil_r. done. }
  destruct (ondataavailable_run r data w x Hx)
    as (x1 & Hx1 & Hchunks & Hstate1 & _ & _ & Hhook & Htrace & Hreq).
  destruct (IH _ x1 Hx1 ltac:(congruence))
    as (w' & x' & Hsteps & Hx' & Hchunks' & Hbytes & Hstate' & Hhook' & Htrace' & Hreq').
  exists w', x'. split; [|split; [done|split; [|split; [|split; [done|]]]]].
  - cbn [fmap list_fmap steps]. unfold step. cbn [enabled].
    rewrite Hx. cbn [fmap option_fmap option_map]. rewrite Hstate.
    rewrite bool_decide_eq_true_2 by done. exact Hsteps.
  - rewrite Hchunks', Hchunks, <- app_assoc. f_equal.
    rewrite filter_cons, filter_nil. rewrite (filter_cons _ data datas).
    by destruct (decide (kept data)).
  - rewrite Hbytes. cbn [new_Blob blob_bytes]. rewrite Hchunks, fmap_app, concat_app.
    rewrite <- app_assoc. f_equal. cbn [fmap list_fmap concat].
    rewrite filter_cons, filter_nil.
    destruct (decide (kept data)) as [Hkept|Hkept]; simpl; [by rewrite app_nil_r|].
    unfold kept, size in Hkept. destruct (blob_bytes data); [done|simpl in Hkept; lia].
  - by rewrite Hhook', Htrace', Hreq', Hhook, Htrace, Hreq.
Qed.


(** ** The length check and the submission *)

Lemma too_short_spec (seen : option Z) (now : Z) :
  too_short seen now = true
  ↔ seen = None ∨ seen = Some 0%Z ∨ ∃ t, seen = Some t ∧ (now - t < 100)%Z.
Proof.
  unfold too_short, truthy_time. destruct seen as [t|]; simpl; [|naive_solver].
  destruct (Z.eqb_spec t 0) as [->|Hne]; simpl; [naive_solver|].
  rewrite bool_decide_eq_true. split; [eauto|].
  intros [?|[[= ?]|(t' & [= <-] & ?)]]; done.
Qed.

(** X2. The handler finds the recording too short exactly when the start
    time it sees is null, is zero, or is less than 100 ms before the clock.
    Then it emits the warning and does nothing else: the world is otherwise
    the same, whatever response would have come. In every other case, a
    start time exactly 100 ms old included, its first two actions are
    [setIsTranscribing(true)] and the POST of the buffered audio. *)
Theorem onstop_length_check
    (r : nat) (now : Z) (outcome : FetchOutcome) (w : World)
    (x : Recorder) (closure : Closure) :
  recorders w !! r = Some x →
  onstop_closure x = Some closure →
  let seen := seen_recordingStartTime closure in
  let req := transcription_request (new_Blob (audioChunks x) "audio/wav")
               (seen_apiKey closure) in
  ((seen = None ∨ seen = Some 0%Z ∨ ∃ t, seen = Some t ∧ (now - t < 100)%Z) →
   onstop r now outcome w
   = (Normal (), with_trace (λ t, t ++ [EToast too_short_warning]) w))
  ∧ (∀ t, seen = Some t → t ≠ 0%Z → (100 <= now - t)%Z →
     ∃ rest, emitted (onstop r now outcome) w
             = ESet (setIsTranscribing true) :: EFetch req :: rest).
Proof.
  intros Hx Hclosure seen req. split.
  - intros Hshort. apply too_short_spec in Hshort.
    rewrite onstop_cut. unfold mbind, Eff_bind.
    by rewrite (onstop_until_fetch_rejects r now w x closure Hx Hclosure Hshort).
  - intros t Hseen Hne Hlong.
    assert (Hnot : too_short seen now = false).
    { apply not_true_is_false. rewrite too_short_spec, Hseen.
      intros [[=]|[[= ?]|(t' & [= <-] & ?)]]; [done|lia]. }
    assert (Hrun : onstop r now outcome w =
                   onstop_from_fetch (length (requests w)) outcome (requested req w)).
    { rewrite onstop_cut. unfold mbind at 1, Eff_bind at 1.
      by rewrite (onstop_until_fetch_sends r now w x closure Hx Hclosure Hnot). }
    destruct (outcome_cases outcome) as [[segments Hok]|[d Hfail]].
    + eexists. apply emitted_app. unfold run.
      rewrite Hrun, (onstop_from_fetch_success _ _ _ _ Hok).
      unfold transcribed, settled, requested. world_simpl.
      rewrite <- !app_assoc. reflexivity.
    + destruct (onstop_from_fetch_failure (length (requests w)) _ _
                  (requested req w) Hfail) as [e He].
      eexists. apply emitted_app. unfold run. rewrite Hrun, He.
      unfold reported, settled, requested. world_simpl.
      rewrite <- !app_assoc. reflexivity.
Qed.

Lemma fire_Stopped (r : nat) (data : Blob) (now : Z) (w : World) :
  run (fire (Stopped r data now)) w
  = run (onstop_until_fetch r now)
      (run (ondataavailable r data)
         (with_recorders
            (alter (λ x, {| state := state x; stream := stream x;
                            audioChunks := audioChunks x;
                            onstop_closure := onstop_closure x;
                            started_at := started_at x;
                            stop_event_queued := false |}) r) w)).
Proof.
  cbn [fire]. unfold run, update_recorder, modify, mbind, Eff_bind. cbn [fst snd].
  unfold ondataavailable, update_recorder, modify, mret, Eff_ret.
  destruct (bool_decide (0 < size data)); cbn [fst snd];
    by destruct (onstop_until_fetch r now _) as [[o|e] w'].
Qed.

(** X3. When the queued [stop] event of a recorder is dispatched and the
    start time its handler sees is old enough, the request that leaves
    carries the whole buffer followed by the last data delivered with the
    event (when not empty), the flag is up and the request pending. When a
    success response then arrives whose result maps to [segments], the
    segments are stored, the completion is notified, the flag is cleared and
    the request is settled. *)
Theorem stop_event_submits_the_audio
    (w : World) (r : nat) (x : Recorder) (closure : Closure)
    (data : Blob) (now : Z) :
  recorders w !! r = Some x →
  stop_event_queued x = true →
  onstop_closure x = Some closure →
  too_short (seen_recordingStartTime closure) now = false →
  let req := transcription_request
               (new_Blob (audioChunks x ++ filter kept [data]) "audio/wav")
               (seen_apiKey closure) in
  ∃ w1,
    step (Stopped r data now) w = Some w1
    ∧ requests w1 = requests w ++ [(req, true)]
    ∧ trace w1 = trace w ++ [ESet (setIsTranscribing true); EFetch req]
    ∧ isTranscribing (hook w1) = true
    ∧ step (Stopped r data now) w1 = None
    ∧ ∀ outcome segments,
        success outcome segments →
        ∃ w2,
          step (Settled (length (requests w)) outcome) w1 = Some w2
          ∧ transcriptionSegments (hook w2) = segments
          ∧ isTranscribing (hook w2) = false
          ∧ trace w2 = trace w1 ++ [ESet (setTranscriptionSegments segments);
                                    EToast transcription_done;
                                    ESet (setIsTranscribing false)]
          ∧ requests w2 = requests w ++ [(req, false)].
Proof.
  intros Hx Hqueued Hclosure Hlong req.
  set (wa := with_recorders
               (alter (λ x, {| state := state x; stream := stream x;
                               audioChunks := audioChunks x;
                               onstop_closure := onstop_closure x;
                               started_at := started_at x;
                               stop_event_queued := false |}) r) w).
  assert (Hxa : recorders wa !! r =
                Some {| state := state x; stream := stream x;
                        audioChunks := audioChunks x;
                        onstop_closure := onstop_closure x;
                        started_at := started_at x;
                        stop_event_queued := false |}).
  { subst wa. world_simpl. by rewrite list_lookup_alter_eq, Hx. }
  destruct (ondataavailable_run r data wa _ Hxa)
    as (xb & Hxb & Hchunks & _ & Hclosure_b & Hqueued_b & Hhook & Htrace & Hreq).
  cbn [audioChunks onstop_closure stop_event_queued] in Hchunks, Hclosure_b, Hqueued_b.
  set (wb := run (ondataavailable r data) wa) in *.
  assert (Hsend := onstop_until_fetch_sends r now wb xb closure Hxb
                     ltac:(congruence) Hlong).
  rewrite Hchunks in Hsend. fold req in Hsend.
  exists (requested req wb).
  assert (Hstep : step (Stopped r data now) w = Some (requested req wb)).
  { unfold step. cbn [enabled]. rewrite Hx. cbn [fmap option_fmap option_map].
    rewrite Hqueued, bool_decide_eq_true_2 by done.
    rewrite fire_Stopped. fold wa. fold wb. unfold run at 1. by rewrite Hsend. }
  split; [exact Hstep|].
  assert (Hreqs : requests (requested req wb) = requests w ++ [(req, true)]).
  { unfold requested. world_simpl. by rewrite Hreq. }
  split; [exact Hreqs|]. split; [|split; [done|split]].
  - unfold requested. world_simpl. by rewrite Htrace.
  - unfold step. cbn [enabled]. unfold requested. world_simpl.
    rewrite Hxb. cbn [fmap option_fmap option_map]. rewrite Hqueued_b.
    by rewrite bool_decide_eq_false_2.
  - intros outcome segments Hok.
    exists (transcribed segments (settled (length (requests w)) (requested req wb))).
    split; [|split; [done|split; [done|split]]].
    + unfold step. cbn [enabled]. rewrite Hreqs.
      rewrite lookup_app_r, Nat.sub_diag by done. cbn.
      unfold run. by rewrite (onstop_from_fetch_success _ _ _ _ Hok).
    + unfold transcribed, settled. world_simpl. reflexivity.
    + unfold transcribed, settled. world_simpl. rewrite Hreqs.
      replace (length (requests w)) with (length (requests w) + 0) at 1 by lia.
      by rewrite alter_app_r.
Qed.


(** ** Starting *)

Lemma alter_snoc {A : Type} (f : A → A) (l : list A) (x : A) :
  alter f (length l) (l ++ [x]) = l ++ [f x].
Proof.
  replace (length l) with (length l + 0) by lia. by rewrite alter_app_r.
Qed.

(** X4. When [startRecording] is called with a credential and any of its
    calls into the platform throws (the prompt, the microphone request, a
    constructor, [start]), it completes normally with the microphone error
    as its only notification: no state cell of the hook changes, no request
    is sent, and a recorder that was created on the way is left inactive. *)
Theorem startRecording_failure
    (apiKey : string) (identificationEnabled : bool) (platform : Platform)
    (now : Z) (w : World) :
  truthy_string apiKey = true →
  platform_succeeds identificationEnabled platform = false →
  let start := startRecording apiKey identificationEnabled platform now in
  (start w).1 = Normal ()
  ∧ toasts start w = [EToast microphone_error]
  ∧ hook (run start w) = hook w
  ∧ requests (run start w) = requests w
  ∧ ∃ created, recorders (run start w) = recorders w ++ created
               ∧ Forall (λ x, state x = inactive) created.
Proof.
  intros Hkey Hfail start.
  assert (H : wp start
    (λ c w', c = Normal ()
             ∧ (∃ es, trace w' = trace w ++ es
                      ∧ filter (λ e, is_toast e = true) es = [EToast microphone_error])
             ∧ hook w' = hook w
             ∧ requests w' = requests w
             ∧ ∃ created, recorders w' = recorders w ++ created
                          ∧ Forall (λ x, state x = inactive) created) w).
  { subst start. unfold startRecording, platform_succeeds in *.
    do 2 wp_step. rewrite Hkey. cbn [negb].
    wp_paths;
      repeat match goal with
             | Heq : _ = Normal _ |- _ => rewrite Heq in Hfail; clear Heq
             | Heq : _ = Throw _ |- _ => rewrite Heq in Hfail; clear Heq
             | Heq : identificationEnabled = _ |- _ => rewrite Heq in Hfail; clear Heq
             end;
      cbn in Hfail; try discriminate Hfail;
      world_simpl; rewrite <- ?app_assoc, ?alter_snoc;
      (split; [reflexivity|]); (split; [eexists; split; reflexivity|]);
      (split; [reflexivity|]); (split; [reflexivity|]);
      first [ exists []; split; [by rewrite app_nil_r|constructor]
            | eexists; split; [reflexivity|]; by repeat constructor ]. }
  unfold wp in H. destruct H as (Hc & (es & Htrace & Hes) & Hhook & Hreq & Hrec).
  split; [done|]. split; [|done].
  unfold toasts. by rewrite (emitted_app _ _ es).
Qed.


Lemma startRecording_run
    (apiKey : string) (identificationEnabled : bool) (platform : Platform)
    (now : Z) (w : World) (tracks : list MediaStreamTrack) :
  truthy_string apiKey = true →
  platform_succeeds identificationEnabled platform = true →
  getUserMedia_result platform = Normal tracks →
  let r := length (recorders w) in
  wp (startRecording apiKey identificationEnabled platform now)
    (λ c w', c = Normal ()
       ∧ hook w' = {| isRecording := true; isPaused := false; mediaRecorder := Some r;
                      transcriptionSegments := transcriptionSegments (hook w);
                      isTranscribing := isTranscribing (hook w);
                      speechRecognition := speechRecognition (hook w);
                      recordingStartTime := Some now |}
       ∧ recorders w'
         = recorders w
           ++ [{| state := recording; stream := tracks; audioChunks := [];
                  onstop_closure :=
                    Some {| seen_recordingStartTime := recordingStartTime (hook w);
                            seen_apiKey := apiKey |};
                  started_at := Some now; stop_event_queued := false |}]
       ∧ recognitions w'
         = recognitions w
           ++ [{| lang := "pt-BR"; continuous := true; interimResults := true;
                  has_onresult := true; listening := false |}]
       ∧ requests w' = requests w
       ∧ ∃ es, trace w' = trace w ++ es
               ∧ filter (λ e, is_toast e = true) es = []
               ∧ filter (λ e, is_getUserMedia e = true) es = [EGetUserMedia 16000 1]
               ∧ ERecorderStart r 1000 ∈ es) w.
Proof.
  intros Hkey Hok Hmic r. subst r. unfold startRecording, getUserMedia, platform_succeeds in *.
    rewrite Hmic in *. clear Hmic.
    do 2 wp_step. rewrite Hkey. cbn [negb].
    wp_paths;
      repeat match goal with
             | Heq : _ = Normal _ |- _ => rewrite Heq in Hok; clear Heq
             | Heq : _ = Throw _ |- _ => rewrite Heq in Hok; clear Heq
             | Heq : identificationEnabled = _ |- _ => rewrite Heq in Hok; clear Heq
             end;
      cbn in Hok; try discriminate Hok;
      world_simpl; rewrite <- ?app_assoc, ?alter_snoc;
      (split; [by destruct_and?|]); (split; [reflexivity|]);
      (split; [reflexivity|]); (split; [reflexivity|]); (split; [reflexivity|]);
      (eexists; split; [reflexivity|]); (split; [reflexivity|]);
      (split; [reflexivity|]); cbn [app];
      repeat first [ apply list_elem_of_here | apply list_elem_of_further ].
Qed.

(** X5. When [startRecording] is called with a credential and every call
    into the platform returns, the hook is recording and not paused, holds
    the new recorder and the clock as start time, and leaves
    [transcriptionSegments], [isTranscribing] and [speechRecognition] as
    they were. The recorder records the stream it was given (asked for as
    mono, 16 kHz), in slices of one second, with an empty buffer. The
    recogniser is configured for [pt-BR], continuous, with interim results,
    and is not listening. Nothing is notified and nothing is sent. *)
Theorem startRecording_success
    (apiKey : string) (identificationEnabled : bool) (platform : Platform)
    (now : Z) (w : World) (tracks : list MediaStreamTrack) :
  truthy_string apiKey = true →
  platform_succeeds identificationEnabled platform = true →
  getUserMedia_result platform = Normal tracks →
  let start := startRecording apiKey identificationEnabled platform now in
  let r := length (recorders w) in
  (start w).1 = Normal ()
  ∧ hook (run start w)
    = {| isRecording := true; isPaused := false; mediaRecorder := Some r;
         transcriptionSegments := transcriptionSegments (hook w);
         isTranscribing := isTranscribing (hook w);
         speechRecognition := speechRecognition (hook w);
         recordingStartTime := Some now |}
  ∧ recorders (run start w)
    = recorders w
      ++ [{| state := recording; stream := tracks; audioChunks := [];
             onstop_closure :=
               Some {| seen_recordingStartTime := recordingStartTime (hook w);
                       seen_apiKey := apiKey |};
             started_at := Some now; stop_event_queued := false |}]
  ∧ recognitions (run start w)
    = recognitions w
      ++ [{| lang := "pt-BR"; continuous := true; interimResults := true;
             has_onresult := true; listening := false |}]
  ∧ requests (run start w) = requests w
  ∧ toasts start w = []
  ∧ filter (λ e, is_getUserMedia e = true) (emitted start w) = [EGetUserMedia 16000 1]
  ∧ ERecorderStart r 1000 ∈ emitted start w.
Proof.
  intros Hkey Hok Hmic start r.
  pose proof (startRecording_run apiKey identificationEnabled platform now w tracks
                Hkey Hok Hmic) as H.
  unfold wp in H.
  destruct H as (Hc & Hhook & Hrec & Hrecog & Hreq & es & Htrace & Htoast & Hmedia & Hstart).
  unfold toasts. rewrite (emitted_app _ _ es) by done. done.
Qed.


(** ** Pausing, resuming, stopping *)

Lemma pauseRecording_run (w : World) (r : nat) (x : Recorder) :
  mediaRecorder (hook w) = Some r →
  recorders w !! r = Some x →
  state x = recording →
  ∃ es,
    hook (run pauseRecording w) = apply_update (setIsPaused true) (hook w)
    ∧ recorders (run pauseRecording w)
      = alter (λ x, {| state := paused; stream := stream x;
                       audioChunks := audioChunks x;
                       onstop_closure := onstop_closure x;
                       started_at := started_at x;
                       stop_event_queued := stop_event_queued x |}) r (recorders w)
    ∧ requests (run pauseRecording w) = requests w
    ∧ trace (run pauseRecording w) = trace w ++ es
    ∧ filter (λ e, is_toast e = true) es = [EToast paused_notice]
    ∧ ERecorderPause r ∈ es.
Proof.
  intros Hr Hx Hstate. apply wp_run. unfold pauseRecording.
  do 2 wp_step. rewrite Hr. do 2 wp_step. rewrite Hx.
  cbn [fmap option_fmap option_map]. rewrite Hstate.
  rewrite bool_decide_eq_true_2 by done.
  repeat wp_step. world_simpl. rewrite Hx.
  cbn [fmap option_fmap option_map]. rewrite Hstate. repeat wp_step.
  destruct (speechRecognition (hook w)) as [recognition|]; repeat wp_step;
    world_simpl; rewrite <- ?app_assoc; eexists; repeat split;
    apply list_elem_of_here.
Qed.

Lemma resumeRecording_run (w : World) (r : nat) (x : Recorder) :
  mediaRecorder (hook w) = Some r →
  recorders w !! r = Some x →
  state x = paused →
  ∃ es,
    hook (run resumeRecording w) = apply_update (setIsPaused false) (hook w)
    ∧ recorders (run resumeRecording w)
      = alter (λ x, {| state := recording; stream := stream x;
                       audioChunks := audioChunks x;
                       onstop_closure := onstop_closure x;
                       started_at := started_at x;
                       stop_event_queued := stop_event_queued x |}) r (recorders w)
    ∧ requests (run resumeRecording w) = requests w
    ∧ trace (run resumeRecording w) = trace w ++ es
    ∧ filter (λ e, is_toast e = true) es = [EToast resumed_notice]
    ∧ ERecorderResume r ∈ es.
Proof.
  intros Hr Hx Hstate. apply wp_run. unfold resumeRecording.
  do 2 wp_step. rewrite Hr. do 2 wp_step. rewrite Hx.
  cbn [fmap option_fmap option_map]. rewrite Hstate.
  rewrite bool_decide_eq_true_2 by done.
  repeat wp_step. world_simpl. rewrite Hx.
  cbn [fmap option_fmap option_map]. rewrite Hstate. repeat wp_step.
  destruct (speechRecognition (hook w)) as [recognition|]; repeat wp_step;
    world_simpl; rewrite <- ?app_assoc; eexists; repeat split;
    apply list_elem_of_here.
Qed.

(** X6. When the hook holds a recorder that is recording, [pauseRecording]
    pauses it, sets [isPaused] and notifies the pause; [resumeRecording]
    then resumes it, clears [isPaused] and notifies the resumption. After
    the two, the recorders (their state, their buffers) are what they were
    before, and so is every state cell other than [isPaused], which is
    false; no request is sent. *)
Theorem pause_then_resume (w : World) (r : nat) (x : Recorder) :
  mediaRecorder (hook w) = Some r →
  recorders w !! r = Some x →
  state x = recording →
  let w1 := run pauseRecording w in
  let w2 := run resumeRecording w1 in
  isPaused (hook w1) = true
  ∧ state <$> recorders w1 !! r = Some paused
  ∧ toasts pauseRecording w = [EToast paused_notice]
  ∧ toasts resumeRecording w1 = [EToast resumed_notice]
  ∧ hook w2 = apply_update (setIsPaused false) (hook w)
  ∧ recorders w2 = recorders w
  ∧ requests w2 = requests w.
Proof.
  intros Hr Hx Hstate w1 w2.
  destruct (pauseRecording_run w r x Hr Hx Hstate)
    as (es1 & Hhook1 & Hrec1 & Hreq1 & Htrace1 & Htoast1 & _).
  fold w1 in Hhook1, Hrec1, Hreq1, Htrace1.
  assert (Hr1 : mediaRecorder (hook w1) = Some r) by (by rewrite Hhook1).
  assert (Hx1 : recorders w1 !! r =
                Some {| state := paused; stream := stream x;
                        audioChunks := audioChunks x;
                        onstop_closure := onstop_closure x;
                        started_at := started_at x;
                        stop_event_queued := stop_event_queued x |}).
  { by rewrite Hrec1, list_lookup_alter_eq, Hx. }
  destruct (resumeRecording_run w1 r _ Hr1 Hx1 eq_refl)
    as (es2 & Hhook2 & Hrec2 & Hreq2 & Htrace2 & Htoast2 & _).
  fold w2 in Hhook2, Hrec2, Hreq2, Htrace2.
  split; [by rewrite Hhook1|]. split; [by rewrite Hx1|].
  split; [unfold toasts; by rewrite (emitted_app _ _ es1)|].
  split; [unfold toasts; by rewrite (emitted_app _ _ es2)|].
  split; [by rewrite Hhook2, Hhook1|]. split; [|congruence].
  rewrite Hrec2, Hrec1, list_alter_alter_eq. apply list_eq. intros i.
  destruct (decide (i = r)) as [->|Hne].
  - rewrite list_lookup_alter_eq, Hx. cbn. f_equal. destruct x; simpl in *; congruence.
  - by rewrite list_lookup_alter_ne.
Qed.

Lemma stopRecording_idle (w : World) :
  mediaRecorder (hook w) = None → stopRecording w = (Normal (), w).
Proof.
  intros Hw. unfold stopRecording, current_render. by rewrite bind_reads, Hw.
Qed.

Lemma stopRecording_drops_recorder (w : World) :
  mediaRecorder (hook (run stopRecording w)) = None.
Proof.
  destruct (mediaRecorder (hook w)) as [r|] eqn:Hr.
  - apply wp_run. unfold stopRecording. do 2 wp_step. rewrite Hr.
    repeat wp_step. eapply wp_eq; [apply for_each_track_stop|]. cbn beta iota.
    wp_paths; reflexivity.
  - unfold run. by rewrite (stopRecording_idle w Hr).
Qed.

(** X7. [stopRecording] does nothing at all when the hook holds no
    recorder, and after it the hook holds none: stopping twice is stopping
    once. *)
Theorem stopRecording_idempotent (w : World) :
  (mediaRecorder (hook w) = None → stopRecording w = (Normal (), w))
  ∧ mediaRecorder (hook (run stopRecording w)) = None
  ∧ run stopRecording (run stopRecording w) = run stopRecording w.
Proof.
  split; [apply stopRecording_idle|]. split; [apply stopRecording_drops_recorder|].
  unfold run at 1. by rewrite (stopRecording_idle _ (stopRecording_drops_recorder w)).
Qed.

(** ** Further invariants of the event loop *)

(** *** The requests *)

Lemma transcription_request_well_formed (chunks : list Blob) (apiKey : string) :
  truthy_string apiKey = true →
  well_formed_request (transcription_request (new_Blob chunks "audio/wav") apiKey).
Proof.
  intros Hkey. split; [done|]. split; [done|]. split; [by exists apiKey|].
  exists (new_Blob chunks "audio/wav"). split; reflexivity.
Qed.

Lemma ck_emit (e : Event) :
  (∀ req, e ≠ EFetch req) → preserves credentials_kept (emit e).
Proof.
  intros He w (Hrec & Hreq & Htrace). split; [done|]. split; [done|].
  unfold run, emit, modify. world_simpl. apply Forall_app. split; [done|].
  apply Forall_singleton. intros req ->. by destruct (He req).
Qed.

Lemma ck_set (u : Update) : preserves credentials_kept (set u).
Proof.
  intros w (Hrec & Hreq & Htrace). split; [done|]. split; [done|].
  unfold run, set, emit, modify, mbind, Eff_bind. world_simpl.
  apply Forall_app. split; [done|]. by apply Forall_singleton.
Qed.

Lemma ck_update_recorder (r : nat) (f : Recorder → Recorder) :
  (∀ x closure, onstop_closure (f x) = Some closure →
                onstop_closure x = Some closure
                ∨ truthy_string (seen_apiKey closure) = true) →
  preserves credentials_kept (update_recorder r f).
Proof.
  intros Hf w (Hrec & Hreq & Htrace). split; [|done].
  unfold run, update_recorder, modify. world_simpl.
  apply Forall_alter; [done|]. intros x _ Hx closure Hclosure.
  destruct (Hf x closure Hclosure) as [Hold|Hnew]; [by apply Hx|done].
Qed.

Lemma ck_new_recorder (x : Recorder) :
  onstop_closure x = None →
  preserves credentials_kept (modify (with_recorders (λ l, l ++ [x]))).
Proof.
  intros Hx w (Hrec & Hreq & Htrace). split; [|done].
  unfold run, modify. world_simpl. apply Forall_app. split; [done|].
  apply Forall_singleton. intros closure. by rewrite Hx.
Qed.

Lemma ck_other (f : World → World) :
  (∀ w, recorders (f w) = recorders w ∧ requests (f w) = requests w
        ∧ trace (f w) = trace w) →
  preserves credentials_kept (modify f).
Proof.
  intros Hf w H. unfold credentials_kept, run, modify. cbn [snd].
  by destruct (Hf w) as (-> & -> & ->).
Qed.

Lemma ck_settle_request (id : nat) :
  preserves credentials_kept
    (modify (with_requests (alter (λ q, (q.1, false)) id))).
Proof.
  intros w (Hrec & Hreq & Htrace). split; [done|]. split; [|done].
  unfold run, modify. world_simpl. apply Forall_alter; [done|]. by intros [req b] _.
Qed.

Lemma ck_fetch_send (req : Request) :
  well_formed_request req → preserves credentials_kept (fetch_send req).
Proof.
  intros Hwf w (Hrec & Hreq & Htrace).
  unfold run, fetch_send, emit, modify, reads, mbind, Eff_bind, mret, Eff_ret.
  world_simpl. split; [done|]. split.
  - apply Forall_app. split; [done|]. by apply Forall_singleton.
  - apply Forall_app. split; [done|]. apply Forall_singleton. by intros ? [= <-].
Qed.

Ltac ck_step :=
  first
    [ apply ck_set
    | apply ck_emit; discriminate
    | apply ck_update_recorder; intros ? ?; cbn [onstop_closure]; by left
    | apply ck_new_recorder; reflexivity
    | apply ck_settle_request
    | apply ck_other; intros ?; repeat split; reflexivity ].

Lemma ck_startRecording (apiKey : string) (identificationEnabled : bool)
    (platform : Platform) (now : Z) :
  preserves credentials_kept
    (startRecording apiKey identificationEnabled platform now).
Proof.
  unfold startRecording, current_render, toast, playIdentificationPrompt, getUserMedia,
    new_MediaRecorder, new_SpeechRecognition, recorder_start, registry_clear,
    update_recognition.
  apply preserves_bind; [apply preserves_reads|]. intros render.
  destruct (truthy_string apiKey) eqn:Hkey; cbn [negb]; [|ck_step].
  preserves_with ltac:(first
    [ ck_step
    | apply ck_update_recorder; intros ? ?; cbn [onstop_closure];
      intros [= <-]; by right ]).
Qed.

Lemma ck_onstop_until_fetch (r : nat) (now : Z) :
  preserves credentials_kept (onstop_until_fetch r now).
Proof.
  intros w Hw. pose proof Hw as (Hrec & _ & _).
  unfold run, onstop_until_fetch. rewrite bind_reads.
  destruct (recorders w !! r) as [x|] eqn:Hx; [|done]. cbn [mbind option_bind].
  destruct (onstop_closure x) as [closure|] eqn:Hclosure; [|done].
  cbn [fmap option_fmap option_map].
  assert (Hkey : truthy_string (seen_apiKey closure) = true).
  { rewrite Forall_lookup in Hrec. by apply (Hrec r x Hx closure). }
  preserves_from w Hw. unfold toast.
  preserves_with ltac:(first
    [ ck_step
    | apply ck_fetch_send; by apply transcription_request_well_formed ]).
Qed.

Lemma ck_fire (l : Label) : preserves credentials_kept (fire l).
Proof.
  destruct l as [apiKey identificationEnabled platform now| | | |r data|r data now
                |id outcome|recognition event]; cbn [fire].
  - apply ck_startRecording.
  - unfold stopRecording, current_render, recorder_stop, getTracks, track_stop,
      recognition_stop, update_recognition.
    preserves_with ltac:(first
      [ ck_step
      | apply ck_update_recorder; intros x ?; destruct (state x);
        cbn [onstop_closure]; by left ]).
  - unfold pauseRecording, current_render, recorder_state, recorder_pause,
      recorder_state, recognition_stop, update_recognition, toast.
    preserves_with ck_step.
  - unfold resumeRecording, current_render, recorder_state, recorder_resume,
      recorder_state, recognition_start, update_recognition, toast.
    preserves_with ck_step.
  - unfold ondataavailable. preserves_with ck_step.
  - unfold ondataavailable.
    preserves_with ltac:(first [ apply ck_onstop_until_fetch | ck_step ]).
  - unfold onstop_from_fetch, fetch_settle, onstop_read, onstop_catch, toast.
    preserves_with ck_step.
  - unfold onresult, onresult_body, registry_find, registry_addProfile, toast.
    preserves_with ck_step.
Qed.

(** X8. In every world the hook can reach, every request that was ever
    sent is a POST to the transcription endpoint whose [Authorization]
    header is [Bearer] followed by a credential that is not empty, and whose
    form carries the file [audio.wav] of type [audio/wav], the model
    [whisper-1], the language [pt] and the response format [verbose_json]:
    nothing is ever sent without a credential. *)
Theorem requests_are_well_formed (w : World) :
  reachable w →
  (∀ req, EFetch req ∈ trace w → well_formed_request req)
  ∧ (∀ req pending, (req, pending) ∈ requests w → well_formed_request req).
Proof.
  intros Hreach.
  assert (H : credentials_kept w).
  { induction Hreach as [registry|w l w' _ IH Hstep].
    - repeat split; constructor.
    - unfold step in Hstep. destruct (enabled l w); [|done].
      injection Hstep as <-. by apply ck_fire. }
  destruct H as (_ & Hreq & Htrace). split.
  - intros req Hin. rewrite list.Forall_forall in Htrace. by apply (Htrace _ Hin).
  - intros req pending Hin. rewrite list.Forall_forall in Hreq. apply (Hreq _ Hin).
Qed.


(** *** The transcribing flag *)

Lemma fr_set (u : Update) :
  u ≠ setIsTranscribing true → preserves flag_has_request (set u).
Proof.
  intros Hu w H. unfold flag_has_request, run, set, emit, modify, mbind, Eff_bind.
  world_simpl. destruct u as [| | | |[|]| |]; cbn [apply_update isTranscribing];
    done.
Qed.

Lemma fr_other (f : World → World) :
  (∀ w, hook (f w) = hook w ∧ requests (f w) = requests w) →
  preserves flag_has_request (modify f).
Proof.
  intros Hf w H. unfold flag_has_request, run, modify. cbn [snd].
  by destruct (Hf w) as (-> & ->).
Qed.

Ltac fr_step :=
  first
    [ apply fr_set; discriminate
    | apply fr_other; intros ?; split; reflexivity ].

Lemma fr_fire (l : Label) : preserves flag_has_request (fire l).
Proof.
  destruct l as [apiKey identificationEnabled platform now| | | |r data|r data now
                |id outcome|recognition event]; cbn [fire].
  - unfold startRecording, current_render, toast, playIdentificationPrompt,
      getUserMedia, new_MediaRecorder, new_SpeechRecognition, recorder_start,
      registry_clear, update_recognition, update_recorder, emit.
    preserves_with fr_step.
  - unfold stopRecording, current_render, recorder_stop, getTracks, track_stop,
      recognition_stop, update_recognition, update_recorder, emit.
    preserves_with fr_step.
  - unfold pauseRecording, current_render, recorder_state, recorder_pause,
      recorder_state, recognition_stop, update_recognition, update_recorder, toast,
      emit.
    preserves_with fr_step.
  - unfold resumeRecording, current_render, recorder_state, recorder_resume,
      recorder_state, recognition_start, update_recognition, update_recorder, toast,
      emit.
    preserves_with fr_step.
  - unfold ondataavailable, update_recorder. preserves_with fr_step.
  - intros w H. apply wp_run. unfold ondataavailable, onstop_until_fetch.
    wp_paths; unfold flag_has_request in *; world_simpl;
      cbn [apply_update isTranscribing]; try exact H.
    intros _. eexists (length (requests w)), _.
    by rewrite lookup_app_r, Nat.sub_diag.
    intros _. eexists (length (requests w)), _.
    by rewrite lookup_app_r, Nat.sub_diag.
  - intros w H. apply wp_run. unfold onstop_from_fetch.
    wp_paths; unfold flag_has_request; world_simpl;
      cbn [apply_update isTranscribing]; discriminate.
  - unfold onresult, onresult_body, registry_find, registry_addProfile, toast, emit.
    preserves_with fr_step.
Qed.

(** X9. In every world the hook can reach, a transcribing flag that is up
    has a request behind it: whenever [isTranscribing] is true, a request
    is pending. (The flag is set just before the request leaves and cleared
    whenever a request settles.) *)
Theorem transcribing_has_a_pending_request (w : World) :
  reachable w →
  isTranscribing (hook w) = true →
  ∃ id req, requests w !! id = Some (req, true).
Proof.
  intros Hreach. change (flag_has_request w).
  induction Hreach as [registry|w l w' _ IH Hstep]; [done|].
  unfold step in Hstep. destruct (enabled l w); [|done].
  injection Hstep as <-. by apply fr_fire.
Qed.


(** *** The paused flag and the recorder *)

Lemma state_lookup_alter (f : Recorder → Recorder) (l : list Recorder) (i j : nat) :
  (∀ x, state (f x) = state x) →
  state <$> alter f i l !! j = state <$> l !! j.
Proof.
  intros Hf. destruct (decide (i = j)) as [->|Hne].
  - rewrite list_lookup_alter_eq. destruct (l !! j); simpl; [by rewrite Hf|done].
  - by rewrite list_lookup_alter_ne.
Qed.

Lemma pm_emit (e : Event) : preserves paused_mirrors_recorder (emit e).
Proof. by intros w H. Qed.

Lemma pm_set (u : Update) :
  (∀ r, u ≠ setMediaRecorder r) → (∀ b, u ≠ setIsPaused b) →
  preserves paused_mirrors_recorder (set u).
Proof.
  intros Hu Hu' w H. unfold paused_mirrors_recorder, run, set, emit, modify, mbind,
    Eff_bind. world_simpl.
  destruct u as [|b|r| | | |]; cbn [apply_update mediaRecorder isPaused]; try done.
  - by destruct (Hu' b).
  - by destruct (Hu r).
Qed.

Lemma pm_update_recorder (r : nat) (f : Recorder → Recorder) :
  (∀ x, state (f x) = state x) →
  preserves paused_mirrors_recorder (update_recorder r f).
Proof.
  intros Hf w H r' Hr'. unfold run, update_recorder, modify in *. world_simpl.
  rewrite length_alter, state_lookup_alter by done. by apply H.
Qed.

Lemma pm_other (f : World → World) :
  (∀ w, hook (f w) = hook w ∧ recorders (f w) = recorders w) →
  preserves paused_mirrors_recorder (modify f).
Proof.
  intros Hf w H. unfold paused_mirrors_recorder, run, modify. cbn [snd].
  by destruct (Hf w) as (-> & ->).
Qed.

Ltac pm_step :=
  first
    [ apply pm_emit
    | apply pm_set; discriminate
    | apply pm_update_recorder; reflexivity
    | apply pm_other; intros ?; split; reflexivity ].

Lemma pm_startRecording (apiKey : string) (identificationEnabled : bool)
    (platform : Platform) (now : Z) :
  preserves paused_mirrors_recorder
    (startRecording apiKey identificationEnabled platform now).
Proof.
  intros w H. apply wp_run. unfold startRecording.
  wp_paths; unfold paused_mirrors_recorder in *; world_simpl; intros r;
    cbn [apply_update mediaRecorder isPaused];
    rewrite ?alter_snoc, ?length_app; cbn [length];
    first
      [ intros [= <-]; split; [lia|];
        by rewrite lookup_app_r, Nat.sub_diag
      | intros Hr; destruct (H r Hr) as [Hlt Hstate]; split; [lia|];
        by rewrite ?lookup_app_l ].
Qed.

Lemma pm_pauseRecording : preserves paused_mirrors_recorder pauseRecording.
Proof.
  intros w H. destruct (mediaRecorder (hook w)) as [r|] eqn:Hr.
  - destruct (H r Hr) as [Hlt Hstate].
    destruct (recorders w !! r) as [x|] eqn:Hx; [|done].
    injection Hstate as Hstate.
    destruct (isPaused (hook w)) eqn:Hpaused.
    + assert (Hnoop : pauseRecording w = (Normal (), w)).
      { unfold pauseRecording, current_render, recorder_state.
        rewrite bind_reads, Hr, bind_reads, Hx. cbn [fmap option_fmap option_map].
        rewrite Hstate. by rewrite bool_decide_eq_false_2. }
      unfold run. by rewrite Hnoop.
    + destruct (pauseRecording_run w r x Hr Hx Hstate)
        as (es & Hhook & Hrec & _).
      intros r'. rewrite Hhook, Hrec, length_alter.
      cbn [apply_update mediaRecorder isPaused]. rewrite Hr. intros [= <-].
      split; [done|]. by rewrite list_lookup_alter_eq, Hx.
  - assert (Hnoop : pauseRecording w = (Normal (), w)).
    { unfold pauseRecording, current_render. by rewrite bind_reads, Hr. }
    unfold run. by rewrite Hnoop.
Qed.

Lemma pm_resumeRecording : preserves paused_mirrors_recorder resumeRecording.
Proof.
  intros w H. destruct (mediaRecorder (hook w)) as [r|] eqn:Hr.
  - destruct (H r Hr) as [Hlt Hstate].
    destruct (recorders w !! r) as [x|] eqn:Hx; [|done].
    injection Hstate as Hstate.
    destruct (isPaused (hook w)) eqn:Hpaused.
    + destruct (resumeRecording_run w r x Hr Hx Hstate)
        as (es & Hhook & Hrec & _).
      intros r'. rewrite Hhook, Hrec, length_alter.
      cbn [apply_update mediaRecorder isPaused]. rewrite Hr. intros [= <-].
      split; [done|]. by rewrite list_lookup_alter_eq, Hx.
    + assert (Hnoop : resumeRecording w = (Normal (), w)).
      { unfold resumeRecording, current_render, recorder_state.
        rewrite bind_reads, Hr, bind_reads, Hx. cbn [fmap option_fmap option_map].
        rewrite Hstate. by rewrite bool_decide_eq_false_2. }
      unfold run. by rewrite Hnoop.
  - assert (Hnoop : resumeRecording w = (Normal (), w)).
    { unfold resumeRecording, current_render. by rewrite bind_reads, Hr. }
    unfold run. by rewrite Hnoop.
Qed.

Lemma pm_fire (l : Label) : preserves paused_mirrors_recorder (fire l).
Proof.
  destruct l as [apiKey identificationEnabled platform now| | | |r data|r data now
                |id outcome|recognition event]; cbn [fire].
  - apply pm_startRecording.
  - intros w _ r Hr. by rewrite stopRecording_drops_recorder in Hr.
  - apply pm_pauseRecording.
  - apply pm_resumeRecording.
  - unfold ondataavailable. preserves_with pm_step.
  - unfold ondataavailable, onstop_until_fetch, toast, fetch_send.
    preserves_with pm_step.
  - unfold onstop_from_fetch, fetch_settle, onstop_read, onstop_catch, toast.
    preserves_with pm_step.
  - unfold onresult, onresult_body, registry_find, registry_addProfile, toast.
    preserves_with pm_step.
Qed.

(** X10. In every world the hook can reach, the recorder the hook holds
    exists and is never inactive: it is paused exactly when [isPaused] is
    true and recording exactly when it is false. The flag shown to the user
    and the state of the platform recorder never disagree. *)
Theorem isPaused_mirrors_the_recorder (w : World) (r : nat) :
  reachable w →
  mediaRecorder (hook w) = Some r →
  state <$> recorders w !! r
  = Some (if isPaused (hook w) then paused else recording).
Proof.
  intros Hreach Hr.
  assert (H : paused_mirrors_recorder w).
  { clear r Hr. induction Hreach as [registry|w l w' _ IH Hstep]; [by intros r|].
    unfold step in Hstep. destruct (enabled l w); [|done].
    injection Hstep as <-. by apply pm_fire. }
  by destruct (H r Hr).
Qed.


(** ** A recording from start to stop *)

Lemma stopRecording_run (w : World) (r : nat) (x : Recorder) :
  mediaRecorder (hook w) = Some r →
  recorders w !! r = Some x →
  ∃ rest,
    hook (run stopRecording w)
    = {| isRecording := false; isPaused := false; mediaRecorder := None;
         transcriptionSegments := transcriptionSegments (hook w);
         isTranscribing := isTranscribing (hook w);
         speechRecognition := None; recordingStartTime := None |}
    ∧ recorders (run stopRecording w)
      = alter (stop_tracks (seq 0 (length (stream x)))) r
          (alter stopped r (recorders w))
    ∧ requests (run stopRecording w) = requests w
    ∧ trace (run stopRecording w)
      = trace w ++ ERecorderStop r
          :: (ETrackStop r <$> seq 0 (length (stream x))) ++ rest
    ∧ filter (λ e, is_toast e = true) rest = [].
Proof.
  intros Hr Hx. apply wp_run. unfold stopRecording.
  do 2 wp_step. rewrite Hr. repeat wp_step. world_simpl.
  rewrite list_lookup_alter_eq, Hx. cbn [fmap option_fmap option_map default].
  replace (stream (match state x with inactive => x | _ => _ end))
    with (stream x) by (by destruct (state x)).
  eapply wp_eq; [apply for_each_track_stop|]. cbn beta iota.
  wp_step.
  destruct (speechRecognition (hook w)) as [recognition|]; repeat wp_step;
    world_simpl; eexists; rewrite <- !app_assoc; repeat split.
Qed.

(** X11. The [onstop] handler measures from the [recordingStartTime] of
    the render that called [startRecording]. So a recording that was
    started while that cell was null (the first render, or any render after
    a stop) is found too short whenever it is stopped, whatever the clock
    and whatever data arrived: the dispatch of its [stop] event emits the
    warning and nothing else, no request is sent, and [isTranscribing] and
    [transcriptionSegments] stay what they were before the start. *)
Theorem recording_started_idle_is_rejected
    (apiKey : string) (identificationEnabled : bool) (platform : Platform)
    (now now' : Z) (w : World) (tracks : list MediaStreamTrack) (data : Blob) :
  truthy_string apiKey = true →
  platform_succeeds identificationEnabled platform = true →
  getUserMedia_result platform = Normal tracks →
  recordingStartTime (hook w) = None →
  ∃ w1 w2 w3,
    step (CallStart apiKey identificationEnabled platform now) w = Some w1
    ∧ step CallStop w1 = Some w2
    ∧ step (Stopped (length (recorders w)) data now') w2 = Some w3
    ∧ trace w3 = trace w2 ++ [EToast too_short_warning]
    ∧ requests w3 = requests w
    ∧ isTranscribing (hook w3) = isTranscribing (hook w)
    ∧ transcriptionSegments (hook w3) = transcriptionSegments (hook w).
Proof.
  intros Hkey Hok Hmic Hidle.
  set (r := length (recorders w)).
  set (w1 := run (startRecording apiKey identificationEnabled platform now) w).
  set (w2 := run stopRecording w1).
  pose proof (startRecording_run apiKey identificationEnabled platform now w tracks
                Hkey Hok Hmic) as Hstart.
  unfold wp in Hstart. cbn zeta in Hstart. fold (run (startRecording apiKey
    identificationEnabled platform now) w) in Hstart. fold w1 r in Hstart.
  destruct Hstart as (_ & Hhook1 & Hrec1 & _ & Hreq1 & _).
  rewrite Hidle in Hrec1.
  set (x1 := {| state := recording; stream := tracks; audioChunks := [];
                onstop_closure :=
                  Some {| seen_recordingStartTime := None; seen_apiKey := apiKey |};
                started_at := Some now; stop_event_queued := false |}) in *.
  assert (Hx1 : recorders w1 !! r = Some x1).
  { rewrite Hrec1. subst r. by rewrite lookup_app_r, Nat.sub_diag. }
  assert (Hr1 : mediaRecorder (hook w1) = Some r) by (by rewrite Hhook1).
  destruct (stopRecording_run w1 r x1 Hr1 Hx1)
    as (rest & Hhook2 & Hrec2 & Hreq2 & _).
  fold w2 in Hhook2, Hrec2, Hreq2.
  assert (Hx2 : ∃ x2, recorders w2 !! r = Some x2
                      ∧ onstop_closure x2 = onstop_closure x1
                      ∧ stop_event_queued x2 = true).
  { rewrite Hrec2, !list_lookup_alter_eq, Hx1. eexists. split; [reflexivity|]. done. }
  destruct Hx2 as (x2 & Hx2 & Hclosure2 & Hqueued2).
  set (wa := with_recorders
               (alter (λ x, {| state := state x; stream := stream x;
                               audioChunks := audioChunks x;
                               onstop_closure := onstop_closure x;
                               started_at := started_at x;
                               stop_event_queued := false |}) r) w2).
  assert (Hxa : recorders wa !! r =
                Some {| state := state x2; stream := stream x2;
                        audioChunks := audioChunks x2;
                        onstop_closure := onstop_closure x2;
                        started_at := started_at x2;
                        stop_event_queued := false |}).
  { subst wa. world_simpl. by rewrite list_lookup_alter_eq, Hx2. }
  destruct (ondataavailable_run r data wa _ Hxa)
    as (xb & Hxb & _ & _ & Hclosure_b & _ & Hhook_b & Htrace_b & Hreq_b).
  cbn [onstop_closure] in Hclosure_b. rewrite Hclosure2 in Hclosure_b.
  set (wb := run (ondataavailable r data) wa) in *.
  pose proof (onstop_until_fetch_rejects r now' wb xb _ Hxb Hclosure_b eq_refl)
    as Hreject.
  exists w1, w2, (with_trace (λ t, t ++ [EToast too_short_warning]) wb).
  split; [done|]. split; [done|]. split.
  { unfold step. cbn [enabled]. rewrite Hx2. cbn [fmap option_fmap option_map].
    rewrite Hqueued2, bool_decide_eq_true_2 by done.
    rewrite fire_Stopped. fold wa. fold wb. unfold run at 1. by rewrite Hreject. }
  world_simpl. rewrite Htrace_b, Hreq_b, Hhook_b. subst wa. world_simpl.
  rewrite Hreq2, Hreq1, Hhook2. cbn [isTranscribing transcriptionSegments].
  by rewrite Hhook1.
Qed.


(** ** Registering participants *)

Lemma for_each_registers (l : list SpeechRecognitionResult) (w : World) :
  ∃ (added : list string) (es : list Event),
    for_each l onresult_body w
    = (Normal (), run (for_each l onresult_body) w)
    ∧ profiles (run (for_each l onresult_body) w)
      = profiles w ++ ((λ n, {| name := n; embedding := [] |}) <$> added)
    ∧ trace (run (for_each l onresult_body) w) = trace w ++ es
    ∧ filter (λ e, is_toast e = true) es
      = (λ n, EToast (participant_notice n)) <$> added
    ∧ Forall (λ n, truthy_string n = true ∧ ¬ registered n w
                   ∧ ∃ result, result ∈ l
                               ∧ handleNameRecognition (transcript result) = Some n)
        added
    ∧ hook (run (for_each l onresult_body) w) = hook w
    ∧ recorders (run (for_each l onresult_body) w) = recorders w
    ∧ requests (run (for_each l onresult_body) w) = requests w.
Proof.
  revert w. induction l as [|result l IH]; intros w.
  { exists [], []. simpl. rewrite !app_nil_r. repeat split. constructor. }
  destruct (onresult_body_cases result w) as [[Hrun _]|(n & Hn & Ht & Hnot & Hrun)].
  - destruct (IH w) as (added & es & Heq & Hprof & Htrace & Htoasts & Hadded & Hrest).
    assert (Hcons : for_each (result :: l) onresult_body w
                    = for_each l onresult_body w).
    { simpl. unfold mbind, Eff_bind. by rewrite Hrun. }
    unfold run. rewrite Hcons. fold (run (for_each l onresult_body) w).
    exists added, es. split; [done|]. split; [done|]. split; [done|].
    split; [done|]. split; [|done].
    eapply list.Forall_impl; [exact Hadded|]. intros m (? & ? & r' & Hin & ?).
    split; [done|]. split; [done|]. exists r'. split; [by right|done].
  - destruct (IH (registration n w))
      as (added & es & Heq & Hprof & Htrace & Htoasts & Hadded & Hhook & Hrec & Hreq).
    assert (Hcons : for_each (result :: l) onresult_body w
                    = for_each l onresult_body (registration n w)).
    { simpl. unfold mbind, Eff_bind. by rewrite Hrun. }
    unfold run. rewrite Hcons. fold (run (for_each l onresult_body) (registration n w)).
    exists (n :: added),
      ([ERegistryAdd {| name := n; embedding := [] |};
        EToast (participant_notice n)] ++ es).
    split; [done|]. split; [|split; [|split; [|split]]].
    + rewrite Hprof. unfold registration. world_simpl.
      by rewrite <- app_assoc.
    + rewrite Htrace. unfold registration. world_simpl.
      by rewrite <- !app_assoc.
    + cbn [app]. rewrite filter_cons_False by done.
      rewrite filter_cons_True by done. by rewrite Htoasts.
    + constructor.
      * split; [done|]. split; [done|]. exists result. split; [by left|done].
      * eapply list.Forall_impl; [exact Hadded|]. intros m (? & Hm & r' & Hin & ?).
        split; [done|]. split.
        -- intros Hreg. apply Hm. apply registered_registration. by left.
        -- exists r'. split; [by right|done].
    + rewrite Hhook, Hrec, Hreq. by unfold registration.
Qed.

(** X12. A result event registers each new participant once: the handler
    appends to the registry one profile, with an empty embedding, for
    every name it adds, and emits one notification for each, in the same
    order. Every name it adds is not empty, had no profile, and was
    recognised in one of the results from [resultIndex] on; afterwards
    every non-empty name recognised in those results has a profile. The
    hook state, the recorders and the requests are untouched, and an event
    whose [resultIndex] is past its results does nothing. *)
Theorem onresult_registers_new_names (event : SpeechRecognitionEvent) (w : World) :
  let w' := run (onresult event) w in
  let fresh := drop (resultIndex event) (results event) in
  (∃ added : list string,
     profiles w' = profiles w ++ ((λ n, {| name := n; embedding := [] |}) <$> added)
     ∧ toasts (onresult event) w = (λ n, EToast (participant_notice n)) <$> added
     ∧ Forall (λ n, truthy_string n = true ∧ ¬ registered n w
                    ∧ ∃ result, result ∈ fresh
                                ∧ handleNameRecognition (transcript result) = Some n)
         added)
  ∧ (∀ result n, result ∈ fresh →
                 handleNameRecognition (transcript result) = Some n →
                 truthy_string n = true → registered n w')
  ∧ hook w' = hook w
  ∧ recorders w' = recorders w
  ∧ requests w' = requests w
  ∧ ((length (results event) ≤ resultIndex event)%nat →
     onresult event w = (Normal (), w)).
Proof.
  intros w' fresh. subst w'. unfold onresult. fold fresh.
  destruct (for_each_registers fresh w)
    as (added & es & _ & Hprof & Htrace & Htoasts & Hadded & Hhook & Hrec & Hreq).
  split; [|split; [|split; [done|split; [done|split; [done|]]]]].
  - exists added. split; [done|]. split; [|done].
    unfold toasts. by rewrite (emitted_app _ _ es).
  - by destruct (for_each_saturates fresh w) as (_ & Hsat & _).
  - intros Hpast. subst fresh. by rewrite drop_ge.
Qed.


(** *** The session cells together *)

Ltac cells_solve :=
  world_simpl; unfold session_cells_agree in *;
  cbn [apply_update isRecording isPaused mediaRecorder transcriptionSegments
       isTranscribing speechRecognition recordingStartTime] in *;
  repeat match goal with
         | Heq : mediaRecorder (hook _) = _ |- _ => rewrite Heq in *
         end;
  try done; try (split; [done|by eexists]).

Lemma cells_fire (l : Label) (w : World) :
  session_cells_agree (hook w) → session_cells_agree (hook (run (fire l) w)).
Proof.
  intros Hcells.
  destruct l as [apiKey identificationEnabled platform now| | | |r data|r data now
                |id outcome|recognition event]; cbn [fire].
  - apply wp_run. unfold startRecording. wp_paths; cells_solve.
  - apply wp_run. unfold stopRecording. do 2 wp_step.
    destruct (mediaRecorder (hook w)) as [r|] eqn:Hr; [|by wp_step].
    repeat wp_step. eapply wp_eq; [apply for_each_track_stop|]. cbn beta iota.
    wp_paths; cells_solve.
  - apply wp_run. unfold pauseRecording. wp_paths; cells_solve.
  - apply wp_run. unfold resumeRecording. wp_paths; cells_solve.
  - apply wp_run. unfold ondataavailable. wp_paths; cells_solve.
  - apply wp_run. unfold ondataavailable, onstop_until_fetch. wp_paths; cells_solve.
  - apply wp_run. unfold onstop_from_fetch. wp_paths; cells_solve.
  - apply (preserves_for_each (λ w', session_cells_agree (hook w'))); [|done].
    intros result w' Hcells'. apply wp_run. unfold onresult_body.
    wp_paths; cells_solve.
Qed.

(** X13. In every world the hook can reach, the session cells agree: when
    the hook holds a recorder, [isRecording] is true and
    [recordingStartTime] is set; when it holds none, [isRecording] and
    [isPaused] are false and [recordingStartTime] is null. *)
Theorem session_cells_go_together (w : World) :
  reachable w →
  (is_Some (mediaRecorder (hook w)) ↔ isRecording (hook w) = true)
  ∧ (is_Some (mediaRecorder (hook w)) ↔ is_Some (recordingStartTime (hook w)))
  ∧ (mediaRecorder (hook w) = None → isPaused (hook w) = false).
Proof.
  intros Hreach.
  assert (H : session_cells_agree (hook w)).
  { induction Hreach as [registry|w l w' _ IH Hstep]; [done|].
    unfold step in Hstep. destruct (enabled l w); [|done].
    injection Hstep as <-. by apply cells_fire. }
  unfold session_cells_agree in H.
  destruct (mediaRecorder (hook w)) as [r|].
  - destruct H as [Hrec Htime]. repeat split; eauto; done.
  - destruct H as (Hrec & Hpaused & Htime). rewrite Hrec, Htime.
    repeat split; try done; by intros [? [=]].
Qed.


(** *** Recorders the hook no longer holds *)

Section Orphaned.

Variable r' : nat.
Variable d : RecordingState * list MediaStreamTrack.

Lemma orphaned_emit (e : Event) : preserves (orphaned r' d) (emit e).
Proof. by intros w H. Qed.

Lemma orphaned_set (u : Update) :
  u ≠ setMediaRecorder (Some r') → preserves (orphaned r' d) (set u).
Proof.
  intros Hu w [Hdev Hheld]. split; [done|]. unfold run, set, emit, modify, mbind,
    Eff_bind. world_simpl.
  destruct u as [| |[r|]| | | |]; cbn [apply_update mediaRecorder]; try done.
  congruence.
Qed.

Lemma orphaned_update_other (r : nat) (f : Recorder → Recorder) :
  r ≠ r' → preserves (orphaned r' d) (update_recorder r f).
Proof.
  intros Hne w [Hdev Hheld]. split; [|done]. unfold device, run, update_recorder,
    modify in *. world_simpl. by rewrite list_lookup_alter_ne.
Qed.

Lemma orphaned_update_recorder (r : nat) (f : Recorder → Recorder) :
  (∀ x, state (f x) = state x) → (∀ x, stream (f x) = stream x) →
  preserves (orphaned r' d) (update_recorder r f).
Proof.
  intros Hstate Hstream w [Hdev Hheld]. split; [|done].
  unfold device, run, update_recorder, modify in *. world_simpl.
  destruct (decide (r = r')) as [->|Hne]; [|by rewrite list_lookup_alter_ne].
  rewrite list_lookup_alter_eq. destruct (recorders w !! r') as [x|]; [|done].
  simpl in *. by rewrite Hstate, Hstream.
Qed.

Lemma orphaned_other (f : World → World) :
  (∀ w, hook (f w) = hook w ∧ recorders (f w) = recorders w) →
  preserves (orphaned r' d) (modify f).
Proof.
  intros Hf w H. unfold orphaned, device, run, modify. cbn [snd].
  by destruct (Hf w) as (-> & ->).
Qed.

Lemma orphaned_startRecording (apiKey : string) (identificationEnabled : bool)
    (platform : Platform) (now : Z) :
  preserves (orphaned r' d)
    (startRecording apiKey identificationEnabled platform now).
Proof.
  intros w [Hdev Hheld].
  assert (Hlt : r' < length (recorders w)).
  { unfold device in Hdev. destruct (recorders w !! r') as [x|] eqn:Hx; [|done].
    by eapply lookup_lt_Some. }
  apply wp_run. unfold startRecording.
  wp_paths; unfold orphaned, device in *; world_simpl;
    cbn [apply_update mediaRecorder];
    rewrite ?alter_snoc, ?lookup_app_l by done;
    (split; [done|]); first [done | intros [= <-]; lia].
Qed.

End Orphaned.

Ltac orphaned_step :=
  first
    [ apply orphaned_emit
    | apply orphaned_set; discriminate
    | apply orphaned_update_other; congruence
    | apply orphaned_update_recorder; reflexivity
    | apply orphaned_other; intros ?; split; reflexivity ].

Lemma orphaned_fire (r' : nat) (d : RecordingState * list MediaStreamTrack)
    (l : Label) :
  preserves (orphaned r' d) (fire l).
Proof.
  destruct l as [apiKey identificationEnabled platform now| | | |r data|r data now
                |id outcome|recognition event]; cbn [fire].
  - apply orphaned_startRecording.
  - intros w Hw. pose proof Hw as [_ Hheld].
    unfold run, stopRecording, current_render. rewrite bind_reads.
    destruct (mediaRecorder (hook w)) as [r|]; [|done].
    preserves_from w Hw. unfold recorder_stop, getTracks, track_stop,
      recognition_stop. preserves_with orphaned_step.
  - intros w Hw. pose proof Hw as [_ Hheld].
    unfold run, pauseRecording, current_render. rewrite bind_reads.
    destruct (mediaRecorder (hook w)) as [r|]; [|done].
    preserves_from w Hw. unfold recorder_state, recorder_pause, recorder_state,
      recognition_stop, toast. preserves_with orphaned_step.
  - intros w Hw. pose proof Hw as [_ Hheld].
    unfold run, resumeRecording, current_render. rewrite bind_reads.
    destruct (mediaRecorder (hook w)) as [r|]; [|done].
    preserves_from w Hw. unfold recorder_state, recorder_resume, recorder_state,
      recognition_start, toast. preserves_with orphaned_step.
  - unfold ondataavailable. preserves_with orphaned_step.
  - unfold ondataavailable, onstop_until_fetch, toast, fetch_send.
    preserves_with orphaned_step.
  - unfold onstop_from_fetch, fetch_settle, onstop_read, onstop_catch, toast.
    preserves_with orphaned_step.
  - unfold onresult, onresult_body, registry_find, registry_addProfile, toast.
    preserves_with orphaned_step.
Qed.

(** X14. A recorder the hook does not hold is out of reach for good:
    whatever the user and the platform do next, its state and its tracks
    stay as they are, and the hook never holds it again. In particular a
    recorder replaced by a second [startRecording] while it was recording
    is never stopped, and the tracks of its microphone never end. *)
Theorem orphaned_recorder_is_never_stopped
    (ls : list Label) (w w' : World) (r : nat)
    (d : RecordingState * list MediaStreamTrack) :
  steps ls w = Some w' →
  device w r = Some d →
  mediaRecorder (hook w) ≠ Some r →
  device w' r = Some d ∧ mediaRecorder (hook w') ≠ Some r.
Proof.
  revert w. induction ls as [|l ls IH]; intros w Hsteps Hdev Hheld.
  - by injection Hsteps as <-.
  - cbn [steps] in Hsteps. unfold step in Hsteps.
    destruct (enabled l w); [|done]. cbn in Hsteps.
    destruct (orphaned_fire r d l w (conj Hdev Hheld)) as [Hdev' Hheld'].
    by apply (IH _ Hsteps).
Qed.


End Properties.

(** ** The properties on the sample data *)

#[local] Existing Instance Sample.v8.

(** The handler of the restarted recording sees the start time of the
    first one; a success response gives it the segments of the response. *)
Example sample_transcription :
  transcriptionSegments
    (hook (run (onstop (services := Sample.services) 1 12000 Sample.response_200)
             Sample.restarted))
  = ["Bom dia a todos."].
Proof. vm_compute. reflexivity. Qed.

(** The handler of a recording started from the first render sees no start
    time, whenever it runs. *)
Example sample_rejection :
  toasts (onstop (services := Sample.services) 0 3600000 Sample.response_200)
    Sample.recording_world
  = [EToast too_short_warning].
Proof. vm_compute. reflexivity. Qed.

(** C4, as the specification words it, fails: a gateway answers 502 with a
    body that is not JSON. No [error.message] is provided, and the
    notification shows the message of the parser's exception, which is none of
    the generic texts. *)
Lemma transcription_failure_counterexample :
  ¬ notified_as_specified
      (toasts (onstop (services := Sample.services) 1 12000 Sample.bad_gateway)
         Sample.restarted)
      Sample.bad_gateway.
Proof.
  intros (d & Hshown & Hd).
  vm_compute in Hshown. injection Hshown as <-.
  cbn in Hd. unfold generic_messages in Hd.
  apply elem_of_cons in Hd as [Hd|Hd]; [discriminate|].
  apply elem_of_cons in Hd as [Hd|Hd]; [discriminate|].
  by apply elem_of_nil in Hd.
Qed.

Lemma transcription_failure_is_reported_witness :
  toasts (onstop (services := Sample.services) 1 12000 Sample.bad_gateway)
    Sample.restarted
  = [EToast (failure_toast "Unexpected token < in JSON at position 0")]
  ∧ toasts (onstop (services := Sample.services) 1 12000 Sample.unconvertible)
      Sample.restarted
    = [EToast (failure_toast "Cannot convert object to primitive value")]
  ∧ isTranscribing
      (hook (run (onstop (services := Sample.services) 1 12000 Sample.bad_gateway)
               Sample.restarted)) = false.
Proof.
  destruct (transcription_failure_is_reported (services := Sample.services)
              1 12000 Sample.bad_gateway Sample.restarted
              Sample.second_recorder
              {| seen_recordingStartTime := Some 1000%Z; seen_apiKey := "sk-valid" |}
              eq_refl eq_refl eq_refl) as [Hflag Hfail].
  destruct (transcription_failure_is_reported (services := Sample.services)
              1 12000 Sample.unconvertible Sample.restarted
              Sample.second_recorder
              {| seen_recordingStartTime := Some 1000%Z; seen_apiKey := "sk-valid" |}
              eq_refl eq_refl eq_refl) as [_ Hfail'].
  split; [|split; [|exact Hflag]].
  - apply (Hfail "Unexpected token < in JSON at position 0").
    exact (failure_unparsable (services := Sample.services)
             {| status := 502;
                json_body := Throw (ErrorObject "Unexpected token < in JSON at position 0") |}
             (ErrorObject "Unexpected token < in JSON at position 0") eq_refl).
  - apply (Hfail' "Cannot convert object to primitive value").
    exact (failure_conversion (services := Sample.services)
             {| status := 400;
                json_body :=
                  Normal (JObj [("error",
                                 JObj [("message", JObj [("toString", JStr "x")])])]) |}
             (JObj [("error", JObj [("message", JObj [("toString", JStr "x")])])])
             (JObj [("toString", JStr "x")])
             (ErrorObject "Cannot convert object to primitive value")
             eq_refl eq_refl ltac:(discriminate) eq_refl eq_refl).
Defined.

Lemma speechRecognition_is_never_set_witness :
  no_live_recognition Sample.restarted.
Proof.
  apply speechRecognition_is_never_set.
  apply (steps_reachable
           [CallStart "sk-valid" false Sample.granted 1000;
            CallStart "sk-valid" false Sample.granted 6000;
            CallStop] Sample.mounted).
  - apply (reachable_mount (services := Sample.services) []).
  - vm_compute. reflexivity.
Defined.

Lemma onresult_registers_at_most_once_witness :
  onresult_body (services := Sample.services) Sample.ana Sample.with_ana
  = (Normal (), Sample.with_ana).
Proof.
  apply (proj1 (onresult_registers_at_most_once (services := Sample.services))
           Sample.ana "Ana" Sample.with_ana).
  - reflexivity.
  - exists {| name := "Ana"; embedding := [] |}. split; [|reflexivity].
    apply list_elem_of_singleton. reflexivity.
Defined.

Lemma pause_resume_noop_witness :
  pauseRecording Sample.mounted = (Normal (), Sample.mounted)
  ∧ resumeRecording Sample.recording_world = (Normal (), Sample.recording_world).
Proof.
  split.
  - apply (proj1 (pause_resume_noop (services := Sample.services) Sample.mounted)).
    intros (r & Hr & _). discriminate Hr.
  - apply (proj2 (pause_resume_noop (services := Sample.services)
                    Sample.recording_world)).
    intros (r & Hr & Hstate). vm_compute in Hr. injection Hr as <-.
    vm_compute in Hstate. discriminate Hstate.
Defined.

Lemma stopRecording_resets_session_witness :
  isRecording (hook (run stopRecording Sample.paused_world)) = false
  ∧ isPaused (hook (run stopRecording Sample.paused_world)) = false
  ∧ mediaRecorder (hook (run stopRecording Sample.paused_world)) = None.
Proof.
  pose proof (stopRecording_resets_session (services := Sample.services)
                Sample.paused_world 0
                {| state := paused; stream := [true]; audioChunks := [];
                   onstop_closure :=
                     Some {| seen_recordingStartTime := None;
                             seen_apiKey := "sk-valid" |};
                   started_at := Some 1000%Z; stop_event_queued := false |}
                eq_refl eq_refl) as (_ & _ & H1 & H2 & H3 & _).
  split; [exact H1|]. split; [exact H2|exact H3].
Defined.

Lemma identification_before_microphone_witness :
  ∃ rest,
    emitted (startRecording (services := Sample.services)
               "sk-valid" true Sample.granted 1000) Sample.with_ana
    = ERegistryClear :: EPlayIdentificationPrompt :: EGetUserMedia 16000 1 :: rest.
Proof.
  destruct (identification_before_microphone (services := Sample.services)
              "sk-valid" Sample.granted 1000 Sample.with_ana eq_refl)
    as [(rest & Hemitted & _ & rest' & ->) _].
  exists rest'. exact Hemitted.
Defined.

Lemma paused_only_while_recording_witness :
  isRecording (hook Sample.paused_world) = true
  ∧ is_Some (mediaRecorder (hook Sample.paused_world)).
Proof.
  apply paused_only_while_recording.
  - apply (steps_reachable
             [CallStart "sk-valid" false Sample.granted 1000; CallPause]
             Sample.mounted).
    + apply (reachable_mount (services := Sample.services) []).
    + vm_compute. reflexivity.
  - reflexivity.
Defined.

Lemma startRecording_without_credential_witness :
  let start := startRecording (services := Sample.services) "" true Sample.granted 1000 in
  (start Sample.mounted).1 = Normal ()
  ∧ emitted start Sample.mounted =
    [EToast {| title := "Erro";
               description := "Por favor, insira sua chave da API OpenAI primeiro.";
               variant := Some "destructive" |}]
  ∧ hook (run start Sample.mounted) = hook Sample.mounted.
Proof.
  pose proof (startRecording_without_credential (services := Sample.services)
                "" true Sample.granted 1000 Sample.mounted eq_refl) as H.
  simpl in H. intros start. split; [apply H|]. split; [apply H | apply H].
Defined.

(** ** The further properties on the sample data *)

Lemma chunks_are_buffered_in_order_witness :
  ∃ w' x',
    steps (DataAvailable 0 <$> [Sample.chunk; Sample.silence; Sample.chunk])
      Sample.recording_world = Some w'
    ∧ recorders w' !! 0 = Some x'
    ∧ audioChunks x' = [Sample.chunk; Sample.chunk].
Proof.
  destruct (chunks_are_buffered_in_order (services := Sample.services)
              Sample.recording_world 0 Sample.first_recorder
              [Sample.chunk; Sample.silence; Sample.chunk] eq_refl eq_refl)
    as (w' & x' & Hsteps & Hx' & Hchunks & _).
  exists w', x'. split; [exact Hsteps|]. split; [exact Hx'|exact Hchunks].
Defined.

Lemma onstop_length_check_witness :
  onstop (services := Sample.services) 0 3600000 Sample.response_200
    Sample.recording_world
  = (Normal (),
     with_trace (λ t, t ++ [EToast too_short_warning]) Sample.recording_world).
Proof.
  apply (proj1 (onstop_length_check (services := Sample.services)
                  0 3600000 Sample.response_200 Sample.recording_world
                  Sample.first_recorder
                  {| seen_recordingStartTime := None; seen_apiKey := "sk-valid" |}
                  eq_refl eq_refl)).
  left. reflexivity.
Defined.

Lemma stop_event_submits_the_audio_witness :
  ∃ w1 w2,
    step (services := Sample.services) (Stopped 1 Sample.chunk 12000)
      Sample.restarted = Some w1
    ∧ step (Settled 0 Sample.response_200) w1 = Some w2
    ∧ transcriptionSegments (hook w2) = ["Bom dia a todos."]
    ∧ isTranscribing (hook w2) = false.
Proof.
  destruct (stop_event_submits_the_audio (services := Sample.services)
              Sample.restarted 1 Sample.second_recorder
              {| seen_recordingStartTime := Some 1000%Z; seen_apiKey := "sk-valid" |}
              Sample.chunk 12000 eq_refl eq_refl eq_refl eq_refl)
    as (w1 & Hstep & _ & _ & _ & _ & Hsettled).
  destruct (Hsettled Sample.response_200 ["Bom dia a todos."]) as
    (w2 & Hstep' & Hsegments & Hflag & _).
  - exists {| status := 200; json_body := Normal (Js.JArr [Js.JStr "Bom dia a todos."]) |},
      (Js.JArr [Js.JStr "Bom dia a todos."]).
    split; [reflexivity|]. split; [reflexivity|]. split; reflexivity.
  - exists w1, w2. split; [exact Hstep|]. split; [exact Hstep'|].
    split; [exact Hsegments|exact Hflag].
Defined.

Lemma startRecording_failure_witness :
  toasts (startRecording (services := Sample.services)
            "sk-valid" true Sample.denied 1000) Sample.mounted
  = [EToast microphone_error]
  ∧ hook (run (startRecording (services := Sample.services)
                 "sk-valid" true Sample.denied 1000) Sample.mounted)
    = hook Sample.mounted.
Proof.
  destruct (startRecording_failure (services := Sample.services)
              "sk-valid" true Sample.denied 1000 Sample.mounted eq_refl eq_refl)
    as (_ & Htoasts & Hhook & _).
  split; [exact Htoasts|exact Hhook].
Defined.

Lemma startRecording_success_witness :
  hook (run (startRecording (services := Sample.services)
               "sk-valid" true Sample.granted 1000) Sample.mounted)
  = {| isRecording := true; isPaused := false; mediaRecorder := Some 0;
       transcriptionSegments := []; isTranscribing := false;
       speechRecognition := None; recordingStartTime := Some 1000%Z |}.
Proof.
  destruct (startRecording_success (services := Sample.services)
              "sk-valid" true Sample.granted 1000 Sample.mounted [true]
              eq_refl eq_refl eq_refl)
    as (_ & Hhook & _).
  exact Hhook.
Defined.

Lemma pause_then_resume_witness :
  recorders (run resumeRecording (run pauseRecording Sample.recording_world))
  = recorders Sample.recording_world
  ∧ toasts pauseRecording Sample.recording_world = [EToast paused_notice].
Proof.
  destruct (pause_then_resume (services := Sample.services)
              Sample.recording_world 0 Sample.first_recorder
              eq_refl eq_refl eq_refl)
    as (_ & _ & Hpaused & _ & _ & Hrecorders & _).
  split; [exact Hrecorders|exact Hpaused].
Defined.

Lemma stopRecording_idempotent_witness :
  mediaRecorder (hook Sample.paused_world) = Some 0
  ∧ mediaRecorder (hook (run stopRecording Sample.paused_world)) = None
  ∧ stopRecording (run stopRecording Sample.paused_world)
    = (Normal (), run stopRecording Sample.paused_world)
  ∧ run stopRecording (run stopRecording Sample.paused_world)
    = run stopRecording Sample.paused_world.
Proof.
  destruct (stopRecording_idempotent (services := Sample.services)
              Sample.paused_world) as (_ & Hnone & Htwice).
  split; [reflexivity|]. split; [exact Hnone|]. split; [|exact Htwice].
  apply (proj1 (stopRecording_idempotent (services := Sample.services)
                  (run stopRecording Sample.paused_world))).
  exact Hnone.
Defined.

Lemma requests_are_well_formed_witness :
  well_formed_request
    (transcription_request (new_Blob [Sample.chunk] "audio/wav") "sk-valid").
Proof.
  apply (proj2 (requests_are_well_formed (services := Sample.services)
                  Sample.transcribing_world
                  (steps_reachable
                     [CallStart "sk-valid" false Sample.granted 1000;
                      CallStart "sk-valid" false Sample.granted 6000;
                      CallStop;
                      Stopped 1 Sample.chunk 12000] Sample.mounted
                     Sample.transcribing_world
                     (reachable_mount (services := Sample.services) [])
                     ltac:(vm_compute; reflexivity)))
           _ true).
  vm_compute. apply list_elem_of_here.
Defined.

Lemma transcribing_has_a_pending_request_witness :
  ∃ id req, requests Sample.transcribing_world !! id = Some (req, true).
Proof.
  apply (transcribing_has_a_pending_request (services := Sample.services)).
  - apply (steps_reachable
             [CallStart "sk-valid" false Sample.granted 1000;
              CallStart "sk-valid" false Sample.granted 6000;
              CallStop;
              Stopped 1 Sample.chunk 12000] Sample.mounted).
    + apply (reachable_mount (services := Sample.services) []).
    + vm_compute. reflexivity.
  - reflexivity.
Defined.

Lemma isPaused_mirrors_the_recorder_witness :
  state <$> recorders Sample.paused_world !! 0 = Some paused.
Proof.
  apply (isPaused_mirrors_the_recorder (services := Sample.services)
           Sample.paused_world 0).
  - apply (steps_reachable
             [CallStart "sk-valid" false Sample.granted 1000; CallPause]
             Sample.mounted).
    + apply (reachable_mount (services := Sample.services) []).
    + vm_compute. reflexivity.
  - reflexivity.
Defined.

Lemma recording_started_idle_is_rejected_witness :
  ∃ w1 w2 w3,
    step (services := Sample.services)
      (CallStart "sk-valid" false Sample.granted 1000) Sample.mounted = Some w1
    ∧ step CallStop w1 = Some w2
    ∧ step (Stopped 0 Sample.chunk 3600000) w2 = Some w3
    ∧ trace w3 = trace w2 ++ [EToast too_short_warning]
    ∧ requests w3 = [].
Proof.
  destruct (recording_started_idle_is_rejected (services := Sample.services)
              "sk-valid" false Sample.granted 1000 3600000 Sample.mounted [true]
              Sample.chunk eq_refl eq_refl eq_refl eq_refl)
    as (w1 & w2 & w3 & H1 & H2 & H3 & Htrace & Hrequests & _).
  exists w1, w2, w3. split; [exact H1|]. split; [exact H2|]. split; [exact H3|].
  split; [exact Htrace|exact Hrequests].
Defined.

Lemma onresult_registers_new_names_witness :
  registered "Ana"
    (run (onresult (services := Sample.services) Sample.ana_speaks) Sample.mounted)
  ∧ ∃ added : list string,
      profiles (run (onresult (services := Sample.services) Sample.ana_speaks)
                  Sample.mounted)
      = (λ n, {| name := n; embedding := [] |}) <$> added
      ∧ toasts (onresult (services := Sample.services) Sample.ana_speaks)
          Sample.mounted
        = (λ n, EToast (participant_notice n)) <$> added.
Proof.
  destruct (onresult_registers_new_names (services := Sample.services)
              Sample.ana_speaks Sample.mounted)
    as ((added & Hprofiles & Htoasts & _) & Hregistered & _).
  split.
  - apply (Hregistered Sample.ana "Ana").
    + apply list_elem_of_further, list_elem_of_here.
    + reflexivity.
    + reflexivity.
  - exists added. split; [exact Hprofiles|exact Htoasts].
Defined.

Lemma session_cells_go_together_witness :
  is_Some (mediaRecorder (hook Sample.paused_world))
  ↔ is_Some (recordingStartTime (hook Sample.paused_world)).
Proof.
  apply (session_cells_go_together (services := Sample.services)
           Sample.paused_world).
  apply (steps_reachable
           [CallStart "sk-valid" false Sample.granted 1000; CallPause]
           Sample.mounted).
  - apply (reachable_mount (services := Sample.services) []).
  - vm_compute. reflexivity.
Defined.

Lemma orphaned_recorder_is_never_stopped_witness :
  device Sample.restarted 0 = Some (recording, [true])
  ∧ mediaRecorder (hook Sample.restarted) ≠ Some 0.
Proof.
  apply (orphaned_recorder_is_never_stopped (services := Sample.services)
           [CallStop] Sample.started_twice Sample.restarted 0 (recording, [true])).
  - vm_compute. reflexivity.
  - vm_compute. reflexivity.
  - vm_compute. discriminate.
Defined.

(** The registry gains one profile for the participant the event names. *)
Example sample_registration :
  profiles (run (onresult (services := Sample.services) Sample.ana_speaks)
              Sample.mounted)
  = [{| name := "Ana"; embedding := [] |}].
Proof. vm_compute. reflexivity. Qed.
